(** * Password security verification service

    A shallow embedding of
      - [supabase/functions/check-password/index.ts]  (the edge function), and
      - [src/utils/passwordValidation.ts]             (the client-side helper),
    together with the properties of the specification that concern them.

    Conventions of the embedding.

    - A JavaScript string is a sequence of UTF-16 code units.  It is modelled
      as a [string], every [ascii] standing for ONE code unit in the range
      U+0000..U+00FF (so [String.length] is JavaScript's [.length]).  Code
      units above U+00FF are outside the modelled input domain.
    - 32-bit words of the digest are [Z] with the wrap-around written out.
    - [await], [fetch] and exceptions are modelled by the small monad [Async]:
      a computation returns, rejects with an error, or awaits one outbound
      [fetch] and continues with whatever the network answered.
    - A JSON document (a parsed request body, or the argument handed to
      [JSON.stringify]) is a [json] value; objects keep their keys in order.
    - [console.error] writes to the log only and is left out. *)

From Stdlib Require Import ZArith List String Ascii Bool Lia QArith.
Import ListNotations.
Local Set Warnings "-register-all".
Local Open Scope string_scope.
Local Open Scope list_scope.
Local Open Scope Z_scope.

(* ===================================================================== *)
(** ** JavaScript strings *)
(* ===================================================================== *)

Module JsString.

(** The code unit of a character. *)
Definition code (c : ascii) : Z := Z.of_N (N_of_ascii c).

Definition unit_of (z : Z) : ascii := ascii_of_N (Z.to_N z).

(** [lo <= c <= hi] on code units: a range [lo-hi] of a character class. *)
Definition between (lo hi c : ascii) : bool :=
  (code lo <=? code c) && (code c <=? code hi).

(** [/[A-Z]/], [/[a-z]/], [/[0-9]/] and [/[^A-Za-z0-9]/] as predicates on one
    code unit. *)
Definition is_upper (c : ascii) : bool := between "A" "Z" c.
Definition is_lower (c : ascii) : bool := between "a" "z" c.
Definition is_digit (c : ascii) : bool := between "0" "9" c.
Definition is_special (c : ascii) : bool :=
  negb (is_upper c || is_lower c || is_digit c).

(** [re.test(s)] for a regular expression that is a single character class:
    some code unit of [s] is in the class. *)
Fixpoint test (cls : ascii -> bool) (s : string) : bool :=
  match s with
  | EmptyString => false
  | String c rest => cls c || test cls rest
  end.

(** [String.prototype.toLowerCase] on one code unit of U+0000..U+00FF: the
    letters A-Z and the Latin-1 capitals U+00C0..U+00DE (the multiplication
    sign U+00D7 apart) move up by 32, everything else stays. *)
Definition lower_unit (c : ascii) : ascii :=
  let n := code c in
  if ((65 <=? n) && (n <=? 90)) ||
     ((192 <=? n) && (n <=? 222) && negb (n =? 215))
  then unit_of (n + 32) else c.

Fixpoint toLowerCase (s : string) : string :=
  match s with
  | EmptyString => EmptyString
  | String c rest => String (lower_unit c) (toLowerCase rest)
  end.

(** [toUpperCase] as [sha1] uses it: on a string of hexadecimal digits, where
    only a-f move. *)
Definition upper_unit (c : ascii) : ascii :=
  if is_lower c then unit_of (code c - 32) else c.

Fixpoint toUpperCase (s : string) : string :=
  match s with
  | EmptyString => EmptyString
  | String c rest => String (upper_unit c) (toUpperCase rest)
  end.

(** [s.substring(0, n)] and [s.substring(n)]. *)
Fixpoint substring_to (n : nat) (s : string) : string :=
  match n, s with
  | O, _ => EmptyString
  | S _, EmptyString => EmptyString
  | S n', String c rest => String c (substring_to n' rest)
  end.

Fixpoint substring_from (n : nat) (s : string) : string :=
  match n, s with
  | O, _ => s
  | S _, EmptyString => EmptyString
  | S n', String _ rest => substring_from n' rest
  end.

(** [s.split(sep)] for a separator of one code unit: never empty, the pieces
    are the maximal runs without [sep]. *)
Fixpoint split (sep : ascii) (s : string) : list string :=
  match s with
  | EmptyString => [EmptyString]
  | String c rest =>
      if Ascii.eqb c sep then EmptyString :: split sep rest
      else match split sep rest with
           | [] => [String c EmptyString]
           | piece :: pieces => String c piece :: pieces
           end
  end.

(** White space and line terminators among U+0000..U+00FF: TAB, LF, VT, FF,
    CR, SPACE and NO-BREAK SPACE. *)
Definition is_space (c : ascii) : bool :=
  let n := code c in
  ((9 <=? n) && (n <=? 13)) || (n =? 32) || (n =? 160).

Fixpoint trimStart (s : string) : string :=
  match s with
  | EmptyString => EmptyString
  | String c rest => if is_space c then trimStart rest else s
  end.

(** [trimEnd]: a character is kept when something that is not white space
    follows it or it is not white space itself. *)
Fixpoint trimEnd (s : string) : string :=
  match s with
  | EmptyString => EmptyString
  | String c rest =>
      match trimEnd rest with
      | EmptyString => if is_space c then EmptyString else String c EmptyString
      | kept => String c kept
      end
  end.

Definition trim (s : string) : string := trimEnd (trimStart s).

(** The value of a digit in the given radix, if it is one. *)
Definition digit_value (radix : Z) (c : ascii) : option Z :=
  let n := code c in
  let v := if is_digit c then n - 48
           else if is_lower c then n - 97 + 10
           else if is_upper c then n - 65 + 10
           else radix in
  if v <? radix then Some v else None.

(** The longest prefix of digits, read in the radix; [None] when there is no
    digit at all. *)
Fixpoint read_digits (radix : Z) (acc : option Z) (s : string) : option Z :=
  match s with
  | EmptyString => acc
  | String c rest =>
      match digit_value radix c with
      | Some v =>
          read_digits radix
            (Some (match acc with Some a => a * radix + v | None => v end))
            rest
      | None => acc
      end
  end.

(** [parseInt(s)] with no radix argument: leading white space is skipped, a
    sign is read, [0x]/[0X] selects base sixteen, and the digits up to the
    first character that is not one are read.  [None] is [NaN].  The result is
    the integer read; JavaScript holds it exactly up to 2^53. *)
Definition parseInt (s : string) : option Z :=
  let s := trimStart s in
  let '(sign, s) :=
    match s with
    | String "-" rest => (-1, rest)
    | String "+" rest => (1, rest)
    | _ => (1, s)
    end in
  let '(radix, s) :=
    match s with
    | String "0" (String "x" rest) => (16, rest)
    | String "0" (String "X" rest) => (16, rest)
    | _ => (10, s)
    end in
  match read_digits radix None s with
  | Some v => Some (sign * v)
  | None => None
  end.

(** [new TextEncoder().encode(s)]: UTF-8, one byte below U+0080 and two bytes
    from U+0080 to U+00FF. *)
Fixpoint utf8_encode (s : string) : list Z :=
  match s with
  | EmptyString => []
  | String c rest =>
      let n := code c in
      if n <? 128 then n :: utf8_encode rest
      else Z.lor 192 (Z.shiftr n 6) :: Z.lor 128 (Z.land n 63)
             :: utf8_encode rest
  end.

End JsString.

(* ===================================================================== *)
(** ** SHA-1 ([crypto.subtle.digest("SHA-1", _)], FIPS 180-4) *)
(* ===================================================================== *)

Module Sha1.

Definition mask32 : Z := 0xFFFFFFFF.
Definition wrap (x : Z) : Z := Z.land x mask32.
Definition add32 (x y : Z) : Z := wrap (x + y).
Definition not32 (x : Z) : Z := Z.lxor x mask32.
Definition rotl (n x : Z) : Z :=
  wrap (Z.lor (Z.shiftl x n) (Z.shiftr x (32 - n))).

(** Round function and round constant of round [t]. *)
Definition f (t : Z) (b c d : Z) : Z :=
  if t <? 20 then Z.lor (Z.land b c) (Z.land (not32 b) d)
  else if t <? 40 then Z.lxor (Z.lxor b c) d
  else if t <? 60 then
    Z.lor (Z.lor (Z.land b c) (Z.land b d)) (Z.land c d)
  else Z.lxor (Z.lxor b c) d.

Definition K (t : Z) : Z :=
  if t <? 20 then 0x5A827999
  else if t <? 40 then 0x6ED9EBA1
  else if t <? 60 then 0x8F1BBCDC
  else 0xCA62C1D6.

(** Padding: the bit 1, zero bits up to 448 modulo 512, the length in bits on
    64 bits, big-endian. *)
Definition be_bytes (count : nat) (x : Z) : list Z :=
  map (fun i => Z.land (Z.shiftr x (8 * Z.of_nat i)) 255) (rev (seq 0 count)).

Definition pad (msg : list Z) : list Z :=
  let len := Z.of_nat (List.length msg) in
  let zeros := Z.to_nat ((55 - len) mod 64) in
  msg ++ [128] ++ repeat 0 zeros ++ be_bytes 8 (8 * len).

(** Big-endian 32-bit words of a byte sequence. *)
Fixpoint words (bytes : list Z) : list Z :=
  match bytes with
  | b0 :: b1 :: b2 :: b3 :: rest =>
      (Z.lor (Z.shiftl b0 24)
         (Z.lor (Z.shiftl b1 16) (Z.lor (Z.shiftl b2 8) b3))) :: words rest
  | _ => []
  end.

(** The message schedule, most recent word first: [W_t] from [W_(t-3)],
    [W_(t-8)], [W_(t-14)] and [W_(t-16)]. *)
Fixpoint schedule (more : nat) (recent : list Z) : list Z :=
  match more with
  | O => recent
  | S more' =>
      let w := rotl 1 (Z.lxor (Z.lxor (nth 2 recent 0) (nth 7 recent 0))
                              (Z.lxor (nth 13 recent 0) (nth 15 recent 0))) in
      schedule more' (w :: recent)
  end.

Record state := State { ha : Z; hb : Z; hc : Z; hd : Z; he : Z }.

Definition initial : state :=
  State 0x67452301 0xEFCDAB89 0x98BADCFE 0x10325476 0xC3D2E1F0.

Definition round (s : state) (tw : Z * Z) : state :=
  let '(t, w) := tw in
  let temp :=
    add32 (add32 (add32 (add32 (rotl 5 (ha s)) (f t (hb s) (hc s) (hd s)))
                        (he s)) (K t)) w in
  State temp (ha s) (rotl 30 (hb s)) (hc s) (hd s).

Definition compress (h : state) (block : list Z) : state :=
  let ws := rev (schedule 64 (rev (words block))) in
  let ts := map Z.of_nat (seq 0 80) in
  let s := fold_left round (combine ts ws) h in
  State (add32 (ha h) (ha s)) (add32 (hb h) (hb s)) (add32 (hc h) (hc s))
        (add32 (hd h) (hd s)) (add32 (he h) (he s)).

Fixpoint blocks (count : nat) (bytes : list Z) : list (list Z) :=
  match count with
  | O => []
  | S count' => firstn 64 bytes :: blocks count' (skipn 64 bytes)
  end.

(** The 20 bytes of the digest. *)
Definition digest (msg : list Z) : list Z :=
  let padded := pad msg in
  let h := fold_left compress (blocks (List.length padded / 64) padded)
             initial in
  flat_map (be_bytes 4) [ha h; hb h; hc h; hd h; he h].

End Sha1.

(* ===================================================================== *)
(** ** JSON documents, errors and asynchronous computations *)
(* ===================================================================== *)

(** A JSON document.  An object lists its members in the order of the text. *)
Inductive json : Type :=
| JNull
| JBool (b : bool)
| JNum (q : Q)
| JStr (s : string)
| JArr (items : list json)
| JObj (members : list (string * json)).

(** The own property [key] of a parsed object: of two members with one key
    [JSON.parse] keeps the later.  [None] is [undefined]. *)
Fixpoint member (key : string) (members : list (string * json)) : option json :=
  match members with
  | [] => None
  | (k, v) :: rest =>
      match member key rest with
      | Some later => Some later
      | None => if String.eqb k key then Some v else None
      end
  end.

(** The property [key] of any parsed JSON value that is not [null]: arrays,
    strings, numbers and booleans have no such property. *)
Definition property (key : string) (j : json) : option json :=
  match j with
  | JObj members => member key members
  | _ => None
  end.

(** [!v] and [typeof v] for a value that is a JSON value or [undefined]. *)
Definition falsy (v : option json) : bool :=
  match v with
  | None => true
  | Some JNull => true
  | Some (JBool b) => negb b
  | Some (JNum q) => Qeq_bool q 0
  | Some (JStr s) => String.eqb s ""
  | Some (JArr _) => false
  | Some (JObj _) => false
  end.

Definition typeof (v : option json) : string :=
  match v with
  | None => "undefined"
  | Some JNull => "object"
  | Some (JBool _) => "boolean"
  | Some (JNum _) => "number"
  | Some (JStr _) => "string"
  | Some (JArr _) => "object"
  | Some (JObj _) => "object"
  end.

(** Thrown values: all of them are [Error] objects with a [message]. *)
Inductive exn : Type :=
| SyntaxError (message : string)
| TypeError (message : string)
| Error (message : string).

Definition message (e : exn) : string :=
  match e with
  | SyntaxError m => m
  | TypeError m => m
  | Error m => m
  end.

(** How a promise settles. *)
Inductive Settled (A : Type) : Type :=
| Resolved (a : A)
| Rejected (e : exn).
Arguments Resolved {A} a.
Arguments Rejected {A} e.

(** An outbound [fetch(url, init)]. *)
Record OutRequest : Type := mkOutRequest {
  out_url : string;
  out_method : string;
  out_headers : list (string * string);
  out_body : option json
}.

(** The [Response] that [fetch] resolves to, as its callers consume it: the
    status, and what [text()] and [json()] settle to. *)
Record Reply : Type := mkReply {
  reply_status : Z;
  reply_text : Settled string;
  reply_json : Settled json
}.

(** [response.ok]: the status is in the range 200-299. *)
Definition ok (r : Reply) : bool :=
  (200 <=? reply_status r) && (reply_status r <=? 299).

(** What the network does with a [fetch]: the call fails, or a reply comes. *)
Inductive FetchOutcome : Type :=
| NetworkFailure (e : exn)
| Answer (r : Reply).

(** An asynchronous computation: it returns, throws, or awaits a [fetch]. *)
Inductive Async (A : Type) : Type :=
| Return (a : A)
| Reject (e : exn)
| Await (rq : OutRequest) (k : FetchOutcome -> Async A).
Arguments Return {A} a.
Arguments Reject {A} e.
Arguments Await {A} rq k.

Fixpoint bind {A B : Type} (m : Async A) (f : A -> Async B) : Async B :=
  match m with
  | Return a => f a
  | Reject e => Reject e
  | Await rq k => Await rq (fun outcome => bind (k outcome) f)
  end.

Notation "x <- m ;; k" := (bind m (fun x => k))
  (at level 61, m at next level, right associativity).

(** [try { m } catch (error) { h error }]. *)
Fixpoint try_catch {A : Type} (m : Async A) (h : exn -> Async A) : Async A :=
  match m with
  | Return a => Return a
  | Reject e => h e
  | Await rq k => Await rq (fun outcome => try_catch (k outcome) h)
  end.

(** [await p] for a promise that has settled. *)
Definition await {A : Type} (p : Settled A) : Async A :=
  match p with
  | Resolved a => Return a
  | Rejected e => Reject e
  end.

(** [await fetch(url, init)]: rejects when the network call fails. *)
Definition fetch (rq : OutRequest) : Async Reply :=
  Await rq (fun outcome =>
    match outcome with
    | NetworkFailure e => Reject e
    | Answer r => Return r
    end).

(** Running a computation against a network: the requests sent, in order, and
    how the computation completes. *)
Fixpoint run {A : Type} (net : OutRequest -> FetchOutcome) (m : Async A)
  : list OutRequest * Settled A :=
  match m with
  | Return a => ([], Resolved a)
  | Reject e => ([], Rejected e)
  | Await rq k =>
      let '(sent, result) := run net (k (net rq)) in (rq :: sent, result)
  end.

(* ===================================================================== *)
(** ** supabase/functions/check-password/index.ts *)
(* ===================================================================== *)

Module CheckPassword.
Import JsString.

(** The inbound request: its method and what [req.json()] settles to. *)
Record Request : Type := mkRequest {
  req_method : string;
  req_json : Settled json
}.

(** [new Response(body, { status, headers })]; the body is [null] or the
    document given to [JSON.stringify]. *)
Record Response : Type := mkResponse {
  body : option json;
  status : Z;
  headers : list (string * string)
}.

Definition corsHeaders : list (string * string) :=
  [ ("Access-Control-Allow-Origin", "*");
    ("Access-Control-Allow-Methods", "POST, OPTIONS");
    ("Access-Control-Allow-Headers",
     "Content-Type, Authorization, X-Client-Info, Apikey") ].

(** [{ ...corsHeaders, "Content-Type": "application/json" }]. *)
Definition jsonHeaders : list (string * string) :=
  corsHeaders ++ [("Content-Type", "application/json")].

(** [b.toString(16)] for a byte, and [.padStart(2, '0')]. *)
Definition hex_digit (d : Z) : ascii :=
  if d <? 10 then unit_of (48 + d) else unit_of (97 + d - 10).

Definition toString16 (b : Z) : string :=
  if b <? 16 then String (hex_digit b) EmptyString
  else String (hex_digit (b / 16)) (String (hex_digit (b mod 16)) EmptyString).

Definition padStart2 (s : string) : string :=
  match s with
  | EmptyString => "00"
  | String c EmptyString => String "0" (String c EmptyString)
  | _ => s
  end.

(** [hashArray.map(...).join('')]. *)
Definition join (pieces : list string) : string :=
  fold_right String.append EmptyString pieces.

Definition sha1 (message : string) : string :=
  let msgBuffer := utf8_encode message in
  let hashArray := Sha1.digest msgBuffer in
  toUpperCase (join (map (fun b => padStart2 (toString16 b)) hashArray)).

(** The messages of the six rules. *)
Definition issue_length : string :=
  "Password must be at least 12 characters long".
Definition issue_uppercase : string :=
  "Password must contain at least one uppercase letter".
Definition issue_lowercase : string :=
  "Password must contain at least one lowercase letter".
Definition issue_number : string :=
  "Password must contain at least one number".
Definition issue_special : string :=
  "Password must contain at least one special character".
Definition issue_common : string :=
  "This password is too common and easily guessed".

Definition commonPasswords : list string :=
  [ "password"; "password123"; "12345678"; "qwerty"; "abc123";
    "monkey"; "1234567"; "letmein"; "trustno1"; "dragon";
    "baseball"; "iloveyou"; "master"; "sunshine"; "ashley";
    "welcome"; "admin"; "root"; "123456789"; "12345678910" ].

(** [array.includes(s)]. *)
Definition includes (array : list string) (s : string) : bool :=
  existsb (String.eqb s) array.

(** [issues.push(m)] under a condition. *)
Definition push_if (cond : bool) (m : string) (issues : list string)
  : list string :=
  if cond then issues ++ [m] else issues.

(** The Policy Evaluator: lines 38-65, the array after the six tests. *)
Definition strengthIssues (password : string) : list string :=
  let issues := [] in
  let issues := push_if (String.length password <? 12)%nat issue_length issues in
  let issues := push_if (negb (test is_upper password)) issue_uppercase issues in
  let issues := push_if (negb (test is_lower password)) issue_lowercase issues in
  let issues := push_if (negb (test is_digit password)) issue_number issues in
  let issues := push_if (negb (test is_special password)) issue_special issues in
  let issues :=
    push_if (includes commonPasswords (toLowerCase password)) issue_common
      issues in
  issues.

(** The responses of the handler. *)
Definition preflight : Response := mkResponse None 200 corsHeaders.

Definition password_required : Response :=
  mkResponse (Some (JObj [("error", JStr "Password is required")]))
    400 jsonHeaders.

Definition weak (issues : list string) : Response :=
  mkResponse
    (Some (JObj [ ("isBreached", JBool false);
                  ("isWeak", JBool true);
                  ("issues", JArr (map JStr issues)) ]))
    200 jsonHeaders.

Definition degraded : Response :=
  mkResponse
    (Some (JObj [ ("isBreached", JBool false);
                  ("isWeak", JBool false);
                  ("apiError", JBool true);
                  ("message", JStr
  "Unable to check password breach status, but password meets strength requirements") ]))
    200 jsonHeaders.

(** [JSON.stringify] writes a number that is [NaN] as [null]. *)
Definition number (n : option Z) : json :=
  match n with
  | Some z => JNum (inject_Z z)
  | None => JNull
  end.

Definition breached (breachCount : option Z) : Response :=
  mkResponse
    (Some (JObj [ ("isBreached", JBool true);
                  ("isWeak", JBool false);
                  ("breachCount", number breachCount);
                  ("message", JStr
                     "This password has been exposed in a data breach") ]))
    200 jsonHeaders.

Definition secure : Response :=
  mkResponse
    (Some (JObj [ ("isBreached", JBool false);
                  ("isWeak", JBool false);
                  ("message", JStr "Password is secure") ]))
    200 jsonHeaders.

Definition internal_error (error : exn) : Response :=
  mkResponse
    (Some (JObj [ ("error", JStr "Internal server error");
                  ("details", JStr (message error)) ]))
    500 jsonHeaders.

(** [const { password } = await req.json()]: destructuring [null] throws.
    The text of a [TypeError] raised by the engine is the engine's own; V8's
    is given here and below. *)
Definition destructure_password (parsed : json) : Async (option json) :=
  match parsed with
  | JNull =>
      Reject (TypeError "Cannot destructure property 'password' of null")
  | _ => Return (property "password" parsed)
  end.

(** The request sent to the range API (lines 87-94). *)
Definition range_request (prefix : string) : OutRequest :=
  mkOutRequest ("https://api.pwnedpasswords.com/range/" ++ prefix)%string
    "GET" [("Add-Padding", "true")] None.

(** The loop of lines 117-133 followed by line 136: the first line whose part
    before the first colon is the suffix decides; [count.trim()] throws when
    that line has no colon. *)
Fixpoint scan (suffix : string) (hashes : list string) : Async Response :=
  match hashes with
  | [] => Return secure
  | line :: rest =>
      let parts := split ":" line in
      let hashSuffix := nth_error parts 0 in
      let count := nth_error parts 1 in
      if match hashSuffix with
         | Some h => String.eqb h suffix
         | None => false
         end
      then match count with
           | Some c => Return (breached (parseInt (trim c)))
           | None =>
               Reject (TypeError
                 "Cannot read properties of undefined (reading 'trim')")
           end
      else scan suffix rest
  end.

(** The Breach Lookup Client: lines 81-146. *)
Definition breachLookup (password : string) : Async Response :=
  let hash := sha1 password in
  let prefix := substring_to 5 hash in
  let suffix := substring_from 5 hash in
  response <- fetch (range_request prefix) ;;
  if negb (ok response) then Return degraded
  else
    text <- await (reply_text response) ;;
    let hashes := split "010" text in
    scan suffix hashes.

(** The body of the [try] block (lines 25-146). *)
Definition evaluate (req : Request) : Async Response :=
  parsed <- await (req_json req) ;;
  password <- destructure_password parsed ;;
  if falsy password || negb (String.eqb (typeof password) "string")
  then Return password_required
  else
    match password with
    | Some (JStr password) =>
        let issues := strengthIssues password in
        if (0 <? List.length issues)%nat then Return (weak issues)
        else breachLookup password
    | _ => Return password_required (* not reached: [typeof] is "string" *)
    end.

(** The [catch] block (lines 148-160). *)
Definition on_error (error : exn) : Async Response :=
  Return (internal_error error).

(** The handler given to [Deno.serve]. *)
Definition handler (req : Request) : Async Response :=
  if String.eqb (req_method req) "OPTIONS" then Return preflight
  else try_catch (evaluate req) on_error.

End CheckPassword.

(* ===================================================================== *)
(** ** src/utils/passwordValidation.ts *)
(* ===================================================================== *)

Module PasswordValidation.

(** [import.meta.env]. *)
Record ImportMetaEnv : Type := mkEnv {
  VITE_SUPABASE_URL : string;
  VITE_SUPABASE_ANON_KEY : string
}.

(** The result synthesised by the [catch] block. *)
Definition unable_to_verify : json :=
  JObj [ ("isBreached", JBool false);
         ("isWeak", JBool false);
         ("message", JStr "Unable to verify password security");
         ("apiError", JBool true) ].

Definition check_request (env : ImportMetaEnv) (password : string)
  : OutRequest :=
  let apiUrl := (VITE_SUPABASE_URL env ++ "/functions/v1/check-password")%string in
  mkOutRequest apiUrl "POST"
    [ ("Content-Type", "application/json");
      ("Authorization", ("Bearer " ++ VITE_SUPABASE_ANON_KEY env)%string) ]
    (Some (JObj [("password", JStr password)])).

(** [checkPassword]; the value returned is the parsed body as it is, the type
    [PasswordCheckResult] being erased at run time. *)
Definition checkPassword (env : ImportMetaEnv) (password : string)
  : Async json :=
  try_catch
    (response <- fetch (check_request env password) ;;
     if negb (ok response) then Reject (Error "Failed to check password")
     else
       result <- await (reply_json response) ;;
       Return result)
    (fun error => Return unable_to_verify).

End PasswordValidation.

(* ===================================================================== *)
(** ** Vocabulary of the properties *)
(* ===================================================================== *)

Import JsString CheckPassword.

(** The password a request brings to the Policy Evaluator's door: the
    method is not OPTIONS, the body parses, and its [password] property is a
    string. *)
Definition password_of (req : Request) : option string :=
  if String.eqb (req_method req) "OPTIONS" then None
  else match req_json req with
       | Resolved parsed =>
           match property "password" parsed with
           | Some (JStr s) => Some s
           | _ => None
           end
       | Rejected _ => None
       end.

(** A POST of the body [{ "password": p }]. *)
Definition post (p : string) : Request :=
  mkRequest "POST" (Resolved (JObj [("password", JStr p)])).

(** A field of the JSON object a response carries. *)
Definition field (key : string) (resp : Response) : option json :=
  match body resp with
  | Some j => property key j
  | None => None
  end.

(** Some code unit of the string has the property. *)
Definition has (P : ascii -> Prop) (s : string) : Prop :=
  exists c, In c (list_ascii_of_string s) /\ P c.

(** The character classes of the composition rules, by code unit: A-Z, a-z,
    0-9, and everything else. *)
Definition uppercase (c : ascii) : Prop := 65 <= code c <= 90.
Definition lowercase (c : ascii) : Prop := 97 <= code c <= 122.
Definition digit (c : ascii) : Prop := 48 <= code c <= 57.
Definition special (c : ascii) : Prop :=
  ~ uppercase c /\ ~ lowercase c /\ ~ digit c.

(** The six messages in the order of the rules. *)
Definition all_issues : list string :=
  [ issue_length; issue_uppercase; issue_lowercase; issue_number;
    issue_special; issue_common ].

(** [l] is [l'] with some entries left out. *)
Inductive subsequence {A : Type} : list A -> list A -> Prop :=
| subsequence_nil : subsequence [] []
| subsequence_skip x l l' : subsequence l l' -> subsequence l (x :: l')
| subsequence_keep x l l' : subsequence l l' -> subsequence (x :: l) (x :: l').

(** The two stages applied to a password that passed the guard of line 27:
    lines 38-146. *)
Definition stages (password : string) : Async Response :=
  let issues := strengthIssues password in
  if (0 <? List.length issues)%nat then Return (weak issues)
  else breachLookup password.

(** The two halves of the digest (lines 83-84). *)
Definition prefix_of (password : string) : string :=
  substring_to 5 (sha1 password).
Definition suffix_of (password : string) : string :=
  substring_from 5 (sha1 password).

(** The seven responses of the handler. *)
Inductive handler_answer : Response -> Prop :=
| answer_preflight : handler_answer preflight
| answer_required : handler_answer password_required
| answer_weak issues : issues <> [] -> handler_answer (weak issues)
| answer_degraded : handler_answer degraded
| answer_breached n : handler_answer (breached n)
| answer_secure : handler_answer secure
| answer_error e : handler_answer (internal_error e).

(** A line of the range API's answer decides the scan when its part before
    the first colon is the suffix. *)
Definition names (suffix line : string) : bool :=
  match nth_error (split ":" line) 0 with
  | Some h => String.eqb h suffix
  | None => false
  end.

(** A network whose range API answers every request with the given status
    and text, and a network that cannot be reached. *)
Definition answering (status : Z) (text : string) : OutRequest -> FetchOutcome :=
  fun _ => Answer (mkReply status (Resolved text)
                     (Rejected (SyntaxError "Unexpected token"))).

Definition unreachable : OutRequest -> FetchOutcome :=
  fun _ => NetworkFailure (TypeError "error sending request").

(* ===================================================================== *)
(** ** Vocabulary of the further properties *)
(* ===================================================================== *)

(** What the handler sends for a request, read off the request alone: the
    range request when the request brings a password without any issue, and
    nothing otherwise. *)
Definition outbound (req : Request) : list OutRequest :=
  match password_of req with
  | Some p =>
      match strengthIssues p with
      | [] => [range_request (prefix_of p)]
      | _ :: _ => []
      end
  | None => []
  end.

(** Every code unit of the string has the property. *)
Definition every (P : ascii -> Prop) (s : string) : Prop :=
  forall c, In c (list_ascii_of_string s) -> P c.

(** An upper-case hexadecimal digit: 0-9 or A-F. *)
Definition hex_upper (c : ascii) : Prop := digit c \/ 65 <= code c <= 70.

(** The part of a string before the first occurrence of a code unit, and
    whether the code unit occurs. *)
Fixpoint before (sep : ascii) (s : string) : string :=
  match s with
  | EmptyString => EmptyString
  | String c rest =>
      if Ascii.eqb c sep then EmptyString else String c (before sep rest)
  end.

Fixpoint occurs (sep : ascii) (s : string) : bool :=
  match s with
  | EmptyString => false
  | String c rest => Ascii.eqb c sep || occurs sep rest
  end.

(** The part between the first and the second occurrence, when there is a
    first. *)
Fixpoint after_first (sep : ascii) (s : string) : option string :=
  match s with
  | EmptyString => None
  | String c rest =>
      if Ascii.eqb c sep then Some (before sep rest) else after_first sep rest
  end.

(** The answer of the scan, stated on the first line that names the suffix:
    none, the answer is "secure"; one with a count field, "breached" with the
    count read by [parseInt] after [trim]; one without, the error of
    [count.trim()]. *)
Definition decided (suffix : string) (hashes : list string)
  : Settled Response :=
  match find (names suffix) hashes with
  | None => Resolved secure
  | Some line =>
      match after_first ":" line with
      | Some count => Resolved (breached (parseInt (trim count)))
      | None =>
          Resolved (internal_error
            (TypeError "Cannot read properties of undefined (reading 'trim')"))
      end
  end.

(** The password of a request that the two stages are run on: a string that
    is not empty. *)
Definition evaluated (req : Request) : option string :=
  match password_of req with
  | Some p => if String.eqb p "" then None else Some p
  | None => None
  end.

(** [hex_upper] as a test. *)
Definition is_hex_upper (c : ascii) : bool := is_digit c || between "A" "F" c.

(** The answer of the Breach Lookup Client under the [catch] block, as a
    function of what the network does with the range request. *)
Definition lookup_answer (net : OutRequest -> FetchOutcome) (p : string)
  : Settled Response :=
  match net (range_request (prefix_of p)) with
  | NetworkFailure e => Resolved (internal_error e)
  | Answer r =>
      if ok r then
        match reply_text r with
        | Resolved text => decided (suffix_of p) (split "010" text)
        | Rejected e => Resolved (internal_error e)
        end
      else Resolved degraded
  end.

(** The answer of the handler, as a function of the request and of what the
    network does. *)
Definition answer (net : OutRequest -> FetchOutcome) (req : Request)
  : Settled Response :=
  if String.eqb (req_method req) "OPTIONS" then Resolved preflight
  else
    match req_json req with
    | Rejected e => Resolved (internal_error e)
    | Resolved JNull =>
        Resolved (internal_error
          (TypeError "Cannot destructure property 'password' of null"))
    | Resolved parsed =>
        match property "password" parsed with
        | Some (JStr p) =>
            if String.eqb p "" then Resolved password_required
            else match strengthIssues p with
                 | [] => lookup_answer net p
                 | issues => Resolved (weak issues)
                 end
        | _ => Resolved password_required
        end
    end.

(* ===================================================================== *)
(** ** src/utils/passwordValidation.ts, the strength indicator *)
(* ===================================================================== *)

Module StrengthIndicator.

(** A value of type [PasswordCheckResult | null] is the JSON value it came
    from, [JNull] being [null]; [result.isBreached] is tested for
    truthiness. *)
Definition truthy (v : option json) : bool := negb (falsy v).

Definition getPasswordStrengthColor (result : json) : string :=
  if falsy (Some result) then "bg-gray-200"
  else if truthy (property "isBreached" result) then "bg-red-500"
  else if truthy (property "isWeak" result) then "bg-orange-500"
  else "bg-green-500".

Definition getPasswordStrengthText (result : json) : string :=
  if falsy (Some result) then "Enter a password"
  else if truthy (property "isBreached" result)
  then "Breached - Choose a different password"
  else if truthy (property "isWeak" result)
  then "Weak - Please strengthen your password"
  else "Strong password".

End StrengthIndicator.

(* ===================================================================== *)
(** ** The sign-up form (component AuthModal), caller of [checkPassword] *)
(* ===================================================================== *)

(** The two handlers of the component that use the password check,
    [checkPasswordSecurity] and [handleEmailAuth].  A handler is modelled on
    the values it closes over (the state of its render) and by what it does
    to the outside, in order; rendering and the timer of [useEffect] are
    left out, and so is [console.error]. *)

Module AuthModal.
Import StrengthIndicator.

Inductive Mode : Type := signin | signup.

(** The calls to the authentication context ([useAuth]). *)
Inductive AuthCall : Type :=
| signUpWithEmail (email password : string)
| signInWithEmail (email password : string).

(** What a handler of the component does to the outside, in order: state
    setters and browser calls, requests sent, calls to the authentication
    context. *)
Inductive Step : Type :=
| preventDefault
| setIsLoading (b : bool)
| setError (text : string)
| setMode (m : Mode)
| setPasswordCheckResult (r : json)
| setIsCheckingPassword (b : bool)
| alert (text : string)
| onClose
| Sent (rq : OutRequest)
| Called (c : AuthCall).

(** A handler of the component: it ends, throws, does a step, awaits a
    [fetch], or awaits a call to the authentication context. *)
Inductive UI (A : Type) : Type :=
| Done (a : A)
| Throw (e : exn)
| Do (s : Step) (k : UI A)
| Net (rq : OutRequest) (k : FetchOutcome -> UI A)
| Auth (c : AuthCall) (k : Settled unit -> UI A).
Arguments Done {A} a.
Arguments Throw {A} e.
Arguments Do {A} s k.
Arguments Net {A} rq k.
Arguments Auth {A} c k.

Fixpoint ui_bind {A B : Type} (m : UI A) (f : A -> UI B) : UI B :=
  match m with
  | Done a => f a
  | Throw e => Throw e
  | Do s k => Do s (ui_bind k f)
  | Net rq k => Net rq (fun outcome => ui_bind (k outcome) f)
  | Auth c k => Auth c (fun settled => ui_bind (k settled) f)
  end.

Notation "x <-- m ;;; k" := (ui_bind m (fun x => k))
  (at level 61, m at next level, right associativity).
Notation "m ;;; k" := (ui_bind m (fun _ => k))
  (at level 61, right associativity).

Definition step (s : Step) : UI unit := Do s (Done tt).

(** [try { m } catch (err) { h err }] and [try { m } finally { f }]. *)
Fixpoint ui_catch {A : Type} (m : UI A) (h : exn -> UI A) : UI A :=
  match m with
  | Done a => Done a
  | Throw e => h e
  | Do s k => Do s (ui_catch k h)
  | Net rq k => Net rq (fun outcome => ui_catch (k outcome) h)
  | Auth c k => Auth c (fun settled => ui_catch (k settled) h)
  end.

Fixpoint ui_finally {A : Type} (m : UI A) (f : UI unit) : UI A :=
  match m with
  | Done a => f ;;; Done a
  | Throw e => f ;;; Throw e
  | Do s k => Do s (ui_finally k f)
  | Net rq k => Net rq (fun outcome => ui_finally (k outcome) f)
  | Auth c k => Auth c (fun settled => ui_finally (k settled) f)
  end.

(** An asynchronous function called from the component. *)
Fixpoint lift {A : Type} (m : Async A) : UI A :=
  match m with
  | Return a => Done a
  | Reject e => Throw e
  | Await rq k => Net rq (fun outcome => lift (k outcome))
  end.

(** [await call(...)] on the authentication context. *)
Definition call (c : AuthCall) : UI unit :=
  Auth c (fun settled =>
    match settled with
    | Resolved _ => Done tt
    | Rejected e => Throw e
    end).

(** The world of a handler: the network and the authentication context. *)
Record World : Type := mkWorld {
  net : OutRequest -> FetchOutcome;
  auth : AuthCall -> Settled unit
}.

Fixpoint ui_run {A : Type} (w : World) (m : UI A) : list Step * Settled A :=
  match m with
  | Done a => ([], Resolved a)
  | Throw e => ([], Rejected e)
  | Do s k => let '(steps, result) := ui_run w k in (s :: steps, result)
  | Net rq k =>
      let '(steps, result) := ui_run w (k (net w rq)) in
      (Sent rq :: steps, result)
  | Auth c k =>
      let '(steps, result) := ui_run w (k (auth w c)) in
      (Called c :: steps, result)
  end.

(** The values a handler closes over: the state of the render it belongs
    to. *)
Record Props : Type := mkProps {
  mode : Mode;
  email : string;
  password : string;
  passwordCheckResult : json
}.

(** [r?.key]: [undefined] when [r] is [null]. *)
Definition optional (key : string) (r : json) : option json :=
  match r with
  | JNull => None
  | _ => property key r
  end.

(** [r.key]: throws when [r] is [null].  The texts of the engine's
    [TypeError]s are V8's. *)
Definition get (key : string) (r : json) : UI (option json) :=
  match r with
  | JNull =>
      Throw (TypeError
        ("Cannot read properties of null (reading '" ++ key ++ "')")%string)
  | _ => Done (property key r)
  end.

Definition mode_is (m m' : Mode) : bool :=
  match m, m' with
  | signin, signin => true
  | signup, signup => true
  | _, _ => false
  end.

Section Join.

(** [Number.prototype.toString] is the engine's: the text of a number is
    taken as given. *)
Variable Number_toString : Q -> string.

(** [items.join(separator)] on a parsed array, [None] when it throws: [null]
    gives the empty text, an array its own [join(",")], an object
    "[object Object]" unless an own member "toString" hides the method. *)
Fixpoint join_with (separator : string) (texts : list string) : string :=
  match texts with
  | [] => ""
  | [t] => t
  | t :: rest => (t ++ separator ++ join_with separator rest)%string
  end.

Fixpoint all_some {A : Type} (l : list (option A)) : option (list A) :=
  match l with
  | [] => Some []
  | None :: _ => None
  | Some a :: rest =>
      match all_some rest with
      | Some others => Some (a :: others)
      | None => None
      end
  end.

Fixpoint element_text (j : json) : option string :=
  match j with
  | JNull => Some ""
  | JBool true => Some "true"
  | JBool false => Some "false"
  | JNum q => Some (Number_toString q)
  | JStr s => Some s
  | JArr items =>
      match all_some (map element_text items) with
      | Some texts => Some (join_with "," texts)
      | None => None
      end
  | JObj members =>
      match member "toString" members with
      | Some _ => None
      | None => Some "[object Object]"
      end
  end.

Definition array_join (separator : string) (items : list json)
  : UI string :=
  match all_some (map element_text items) with
  | Some texts => Done (join_with separator texts)
  | None => Throw (TypeError "Cannot convert object to primitive value")
  end.

(** [r.issues?.join('. ') || 'Password does not meet security
    requirements.'] for a result [r] that is not [null]; [name] is the name
    of the variable, which the engine's message quotes. *)
Definition issues_text (name : string) (r : json) : UI string :=
  match property "issues" r with
  | None => Done "Password does not meet security requirements."
  | Some JNull => Done "Password does not meet security requirements."
  | Some (JArr items) =>
      text <-- array_join ". " items ;;;
      Done (if String.eqb text ""
            then "Password does not meet security requirements."
            else text)
  | Some _ =>
      Throw (TypeError (name ++ ".issues?.join is not a function")%string)
  end.

Definition breach_text : string :=
  "This password has been exposed in a data breach. Please choose a different password.".

(** The body of the [try] block of [handleEmailAuth] in sign-up mode. *)
Definition sign_up (env : PasswordValidation.ImportMetaEnv) (props : Props)
  : UI unit :=
  let passwordCheckResult := passwordCheckResult props in
  if truthy (optional "isBreached" passwordCheckResult) then
    step (setError breach_text) ;;;
    step (setIsLoading false)
  else if truthy (optional "isWeak" passwordCheckResult) then
    text <-- issues_text "passwordCheckResult" passwordCheckResult ;;;
    step (setError text) ;;;
    step (setIsLoading false)
  else
    let proceed :=
      call (signUpWithEmail (email props) (password props)) ;;;
      step (setError "") ;;;
      step (alert
        "Account created! Please check your email to verify your account, then sign in.") ;;;
      step (setMode signin) in
    if falsy (Some passwordCheckResult)
       && (6 <=? String.length (password props))%nat
    then
      step (setIsCheckingPassword true) ;;;
      result <-- lift (PasswordValidation.checkPassword env (password props)) ;;;
      step (setPasswordCheckResult result) ;;;
      step (setIsCheckingPassword false) ;;;
      isBreached <-- get "isBreached" result ;;;
      if truthy isBreached then
        step (setError breach_text) ;;;
        step (setIsLoading false)
      else
        isWeak <-- get "isWeak" result ;;;
        if truthy isWeak then
          text <-- issues_text "result" result ;;;
          step (setError text) ;;;
          step (setIsLoading false)
        else proceed
    else proceed.

(** [handleEmailAuth]. *)
Definition handleEmailAuth (env : PasswordValidation.ImportMetaEnv)
  (props : Props) : UI unit :=
  step preventDefault ;;;
  step (setIsLoading true) ;;;
  step (setError "") ;;;
  ui_finally
    (ui_catch
       (if mode_is (mode props) signup then sign_up env props
        else
          call (signInWithEmail (email props) (password props)) ;;;
          step onClose)
       (fun err =>
          step (setError
            (if String.eqb (message err) ""
             then "Authentication failed. Please try again."
             else message err))))
    (step (setIsLoading false)).

End Join.

(** [checkPasswordSecurity], which closes over [mode] only. *)
Definition checkPasswordSecurity (env : PasswordValidation.ImportMetaEnv)
  (mode : Mode) (pwd : string) : UI unit :=
  if mode_is mode signin || String.eqb pwd ""
     || (String.length pwd <? 6)%nat
  then step (setPasswordCheckResult JNull)
  else
    step (setIsCheckingPassword true) ;;;
    result <-- lift (PasswordValidation.checkPassword env pwd) ;;;
    step (setPasswordCheckResult result) ;;;
    step (setIsCheckingPassword false).

End AuthModal.

(** The request as the edge function receives it when the network delivers
    it: [JSON.stringify] on one side and [req.json()] on the other give the
    document back. *)
Definition request_of (rq : OutRequest) : Request :=
  mkRequest (out_method rq)
    (match out_body rq with
     | Some document => Resolved document
     | None => Rejected (SyntaxError "Unexpected end of JSON input")
     end).

(** The reply [r] is the response [resp] of the edge function, delivered. *)
Definition delivers (r : Reply) (resp : Response) : Prop :=
  reply_status r = status resp /\
  reply_json r =
    match body resp with
    | Some document => Resolved document
    | None => Rejected (SyntaxError "Unexpected end of JSON input")
    end.

(** What [checkPassword] resolves to, as a function of what the network does
    with its request. *)
Definition client_result (net : OutRequest -> FetchOutcome)
  (env : PasswordValidation.ImportMetaEnv) (password : string) : json :=
  match net (PasswordValidation.check_request env password) with
  | NetworkFailure _ => PasswordValidation.unable_to_verify
  | Answer r =>
      if ok r
      then match reply_json r with
           | Resolved parsed => parsed
           | Rejected _ => PasswordValidation.unable_to_verify
           end
      else PasswordValidation.unable_to_verify
  end.

(** A result lets the sign-up go on: it is not [null] and neither
    [isBreached] nor [isWeak] is truthy. *)
Definition lets_through (result : json) : bool :=
  match result with
  | JNull => false
  | _ => negb (StrengthIndicator.truthy (property "isBreached" result))
         && negb (StrengthIndicator.truthy (property "isWeak" result))
  end.

(** A reply that delivers a response to a caller that reads it with
    [json()]. *)
Definition handed (resp : Response) : Reply :=
  mkReply (status resp) (Rejected (Error "body already used"))
    (match body resp with
     | Some document => Resolved document
     | None => Rejected (SyntaxError "Unexpected end of JSON input")
     end).

Definition supabase : PasswordValidation.ImportMetaEnv :=
  PasswordValidation.mkEnv "https://project.supabase.co" "anon-key".

(** Vocabulary of the properties of the sign-up form: what the [catch]
    block of [handleEmailAuth] shows, the body of its [try] block, and the
    last stage of the sign-up. *)
Definition error_text (err : exn) : string :=
  if String.eqb (message err) ""
  then "Authentication failed. Please try again." else message err.

Definition try_body (Number_toString : Q -> string)
  (env : PasswordValidation.ImportMetaEnv) (props : AuthModal.Props)
  : AuthModal.UI unit :=
  if AuthModal.mode_is (AuthModal.mode props) AuthModal.signup
  then AuthModal.sign_up Number_toString env props
  else
    AuthModal.ui_bind
      (AuthModal.call
         (AuthModal.signInWithEmail (AuthModal.email props)
            (AuthModal.password props)))
      (fun _ => AuthModal.step AuthModal.onClose).

Definition caught (r : Settled unit) : list AuthModal.Step :=
  match r with
  | Resolved _ => []
  | Rejected e => [AuthModal.setError (error_text e)]
  end.

Definition proceed (props : AuthModal.Props) : AuthModal.UI unit :=
  AuthModal.ui_bind
    (AuthModal.call
       (AuthModal.signUpWithEmail (AuthModal.email props)
          (AuthModal.password props)))
    (fun _ =>
       AuthModal.ui_bind (AuthModal.step (AuthModal.setError ""))
         (fun _ =>
            AuthModal.ui_bind
              (AuthModal.step (AuthModal.alert
  "Account created! Please check your email to verify your account, then sign in."))
              (fun _ => AuthModal.step (AuthModal.setMode AuthModal.signin)))).

(** The condition under which [handleEmailAuth] goes on to
    [signUpWithEmail]: sign-up mode, a stored result (if any) without a
    truthy [isBreached] or [isWeak], and, when no result is stored and the
    password has at least 6 code units, a fresh result that lets through. *)
Definition gate_open (net : OutRequest -> FetchOutcome)
  (env : PasswordValidation.ImportMetaEnv) (props : AuthModal.Props) : bool :=
  AuthModal.mode_is (AuthModal.mode props) AuthModal.signup
  && negb (StrengthIndicator.truthy
             (AuthModal.optional "isBreached"
                (AuthModal.passwordCheckResult props)))
  && negb (StrengthIndicator.truthy
             (AuthModal.optional "isWeak"
                (AuthModal.passwordCheckResult props)))
  && (if falsy (Some (AuthModal.passwordCheckResult props))
         && (6 <=? String.length (AuthModal.password props))%nat
      then lets_through
             (client_result net env (AuthModal.password props))
      else true).

(** Whether [handleEmailAuth] asks for a fresh check. *)
Definition checks_now (props : AuthModal.Props) : bool :=
  AuthModal.mode_is (AuthModal.mode props) AuthModal.signup
  && negb (StrengthIndicator.truthy
             (AuthModal.optional "isBreached"
                (AuthModal.passwordCheckResult props)))
  && negb (StrengthIndicator.truthy
             (AuthModal.optional "isWeak"
                (AuthModal.passwordCheckResult props)))
  && falsy (Some (AuthModal.passwordCheckResult props))
  && (6 <=? String.length (AuthModal.password props))%nat.

(* ===================================================================== *)
(** ** Properties *)
(* ===================================================================== *)

Arguments sha1 : simpl never.
Arguments strengthIssues : simpl never.
Arguments split : simpl never.
Arguments trim : simpl never.
Arguments parseInt : simpl never.

(** *** The monad *)

Lemma run_bind {A B : Type} net (m : Async A) (f : A -> Async B) :
  run net (bind m f) =
  match run net m with
  | (sent, Resolved a) =>
      let '(sent', result) := run net (f a) in (sent ++ sent', result)
  | (sent, Rejected e) => (sent, Rejected e)
  end.
Proof.
  induction m as [a | e | rq k IH]; simpl.
  - destruct (run net (f a)); reflexivity.
  - reflexivity.
  - rewrite IH. destruct (run net (k (net rq))) as [sent [a | e]].
    + destruct (run net (f a)); reflexivity.
    + reflexivity.
Qed.

Lemma run_try_catch {A : Type} net (m : Async A) (h : exn -> Async A) :
  run net (try_catch m h) =
  match run net m with
  | (sent, Resolved a) => (sent, Resolved a)
  | (sent, Rejected e) =>
      let '(sent', result) := run net (h e) in (sent ++ sent', result)
  end.
Proof.
  induction m as [a | e | rq k IH]; simpl.
  - reflexivity.
  - destruct (run net (h e)); reflexivity.
  - rewrite IH. destruct (run net (k (net rq))) as [sent [a | e]].
    + reflexivity.
    + destruct (run net (h e)); reflexivity.
Qed.

(** *** The guard of line 27 *)

Lemma guard_passes (v : option json) :
  falsy v || negb (String.eqb (typeof v) "string") = false <->
  exists p, v = Some (JStr p) /\ p <> "".
Proof.
  split.
  - destruct v as [[| b | q | s | items | members] |]; simpl;
      try (rewrite orb_true_r; discriminate); try discriminate.
    rewrite orb_false_r. intros H. exists s. split; [reflexivity |].
    intros ->. discriminate.
  - intros (p & -> & Hp). simpl. rewrite orb_false_r.
    apply String.eqb_neq. exact Hp.
Qed.

Lemma guard_rejects (v : option json) :
  typeof v <> "string" ->
  falsy v || negb (String.eqb (typeof v) "string") = true.
Proof.
  intros H. apply String.eqb_neq in H. rewrite H. apply orb_true_r.
Qed.

Lemma password_of_inv req p :
  password_of req = Some p ->
  String.eqb (req_method req) "OPTIONS" = false /\
  exists parsed, req_json req = Resolved parsed /\
                 parsed <> JNull /\
                 property "password" parsed = Some (JStr p).
Proof.
  unfold password_of.
  destruct (String.eqb (req_method req) "OPTIONS"); [discriminate |].
  destruct (req_json req) as [parsed | e]; [| discriminate].
  destruct (property "password" parsed) as [[| b | q | s | items | members] |] eqn:E;
    try discriminate.
  intros [= ->]. split; [reflexivity |]. exists parsed.
  repeat split; trivial. intros ->. discriminate.
Qed.

Lemma handler_with_password req p :
  password_of req = Some p -> p <> "" ->
  handler req = try_catch (stages p) on_error.
Proof.
  intros H Hp. apply password_of_inv in H as (Hm & parsed & Hj & Hn & Hprop).
  unfold handler, evaluate. rewrite Hm, Hj. simpl.
  assert (Hd : destructure_password parsed = Return (Some (JStr p))).
  { unfold destructure_password. rewrite Hprop.
    destruct parsed; try reflexivity. contradiction. }
  rewrite Hd. simpl.
  apply String.eqb_neq in Hp. rewrite Hp. simpl. reflexivity.
Qed.

Lemma handler_with_empty_password net req :
  password_of req = Some "" ->
  run net (handler req) = ([], Resolved password_required).
Proof.
  intros H. apply password_of_inv in H as (Hm & parsed & Hj & Hn & Hprop).
  unfold handler, evaluate. rewrite Hm, Hj. simpl.
  assert (Hd : destructure_password parsed = Return (Some (JStr ""))).
  { unfold destructure_password. rewrite Hprop.
    destruct parsed; try reflexivity. contradiction. }
  rewrite Hd. reflexivity.
Qed.

Lemma issues_nonempty (issues : list string) :
  issues <> [] -> (0 <? List.length issues)%nat = true.
Proof. destruct issues; [contradiction | reflexivity]. Qed.

Lemma issues_empty (issues : list string) :
  issues = [] -> (0 <? List.length issues)%nat = false.
Proof. intros ->. reflexivity. Qed.

Lemma handler_weak net req p :
  password_of req = Some p -> p <> "" -> strengthIssues p <> [] ->
  run net (handler req) = ([], Resolved (weak (strengthIssues p))).
Proof.
  intros H Hp Hi. rewrite (handler_with_password req p H Hp).
  unfold stages. rewrite (issues_nonempty _ Hi). reflexivity.
Qed.

(** *** The scan of the range API's answer *)

Lemma scan_skips suffix line rest :
  names suffix line = false -> scan suffix (line :: rest) = scan suffix rest.
Proof. unfold names. intros H. cbn [scan]. rewrite H. reflexivity. Qed.

Lemma scan_clean suffix hashes :
  forallb (fun line => negb (names suffix line)) hashes = true ->
  scan suffix hashes = Return secure.
Proof.
  induction hashes as [| line rest IH]; [reflexivity |].
  cbn [forallb]. intros H. apply andb_true_iff in H as [Hl Hr].
  apply negb_true_iff in Hl. rewrite (scan_skips _ _ _ Hl). apply IH, Hr.
Qed.

Lemma scan_found suffix before line count after :
  forallb (fun l => negb (names suffix l)) before = true ->
  names suffix line = true ->
  nth_error (split ":" line) 1 = Some count ->
  scan suffix (before ++ line :: after) =
  Return (breached (parseInt (trim count))).
Proof.
  intros Hb Hl Hc. induction before as [| l before IH].
  - unfold names in Hl. cbn [app scan]. rewrite Hl, Hc. reflexivity.
  - cbn [forallb] in Hb. apply andb_true_iff in Hb as [H1 H2].
    apply negb_true_iff in H1. cbn [app].
    rewrite (scan_skips _ _ _ H1). apply IH, H2.
Qed.

Lemma scan_cases suffix hashes :
  scan suffix hashes = Return secure \/
  (exists n, scan suffix hashes = Return (breached n)) \/
  (exists e, scan suffix hashes = Reject e).
Proof.
  induction hashes as [| line rest IH]; [left; reflexivity |].
  destruct (names suffix line) eqn:E.
  - unfold names in E. cbn [scan]. rewrite E.
    destruct (nth_error (split ":" line) 1) as [count |].
    + right; left. eexists. reflexivity.
    + right; right. eexists. reflexivity.
  - rewrite (scan_skips _ _ _ E). exact IH.
Qed.

(** *** The Breach Lookup Client under the [catch] block *)

Lemma lookup_unreachable net p e :
  net (range_request (prefix_of p)) = NetworkFailure e ->
  run net (try_catch (breachLookup p) on_error) =
  ([range_request (prefix_of p)], Resolved (internal_error e)).
Proof.
  intros H. unfold breachLookup, fetch. fold (prefix_of p) (suffix_of p).
  cbn [bind try_catch run]. rewrite H. reflexivity.
Qed.

Lemma lookup_not_ok net p r :
  net (range_request (prefix_of p)) = Answer r -> ok r = false ->
  run net (try_catch (breachLookup p) on_error) =
  ([range_request (prefix_of p)], Resolved degraded).
Proof.
  intros H Hok. unfold breachLookup, fetch. fold (prefix_of p) (suffix_of p).
  cbn [bind try_catch run]. rewrite H. cbn [bind try_catch run].
  rewrite Hok. reflexivity.
Qed.

Lemma lookup_unreadable net p r e :
  net (range_request (prefix_of p)) = Answer r -> ok r = true ->
  reply_text r = Rejected e ->
  run net (try_catch (breachLookup p) on_error) =
  ([range_request (prefix_of p)], Resolved (internal_error e)).
Proof.
  intros H Hok Ht. unfold breachLookup, fetch.
  fold (prefix_of p) (suffix_of p).
  cbn [bind try_catch run]. rewrite H. cbn [bind try_catch run].
  rewrite Hok, Ht. reflexivity.
Qed.

Lemma scan_sends_nothing net suffix hashes :
  fst (run net (try_catch (scan suffix hashes) on_error)) = [].
Proof.
  destruct (scan_cases suffix hashes) as [E | [[n E] | [e E]]];
    rewrite E; reflexivity.
Qed.

Lemma lookup_scans net p r text :
  net (range_request (prefix_of p)) = Answer r -> ok r = true ->
  reply_text r = Resolved text ->
  run net (try_catch (breachLookup p) on_error) =
  ([range_request (prefix_of p)],
   snd (run net (try_catch (scan (suffix_of p) (split "010" text)) on_error))).
Proof.
  intros H Hok Ht. unfold breachLookup, fetch.
  fold (prefix_of p) (suffix_of p).
  cbn [bind try_catch run]. rewrite H. cbn [bind try_catch run].
  rewrite Hok, Ht. cbn [negb await bind].
  destruct (scan_cases (suffix_of p) (split "010" text))
    as [E | [[n E] | [e E]]]; rewrite E; reflexivity.
Qed.

(** The lookup sends exactly one request, whatever the network does. *)
Lemma lookup_sends_one net p :
  fst (run net (try_catch (breachLookup p) on_error)) =
  [range_request (prefix_of p)].
Proof.
  destruct (net (range_request (prefix_of p))) as [e | r] eqn:H.
  - rewrite (lookup_unreachable _ _ _ H). reflexivity.
  - destruct (ok r) eqn:Hok.
    + destruct (reply_text r) as [text | e] eqn:Ht.
      * rewrite (lookup_scans _ _ _ _ H Hok Ht). reflexivity.
      * rewrite (lookup_unreadable _ _ _ _ H Hok Ht). reflexivity.
    + rewrite (lookup_not_ok _ _ _ H Hok). reflexivity.
Qed.

Lemma handler_looks_up req p :
  password_of req = Some p -> strengthIssues p = [] ->
  handler req = try_catch (breachLookup p) on_error.
Proof.
  intros H Hi.
  assert (Hp : p <> "") by (intros ->; vm_compute in Hi; discriminate).
  rewrite (handler_with_password req p H Hp). unfold stages.
  rewrite (issues_empty _ Hi). reflexivity.
Qed.

(** *** Every answer of the handler *)

Lemma scan_answers net suffix hashes :
  exists resp,
    snd (run net (try_catch (scan suffix hashes) on_error)) = Resolved resp /\
    (resp = secure \/ (exists n, resp = breached n) \/
     exists e, resp = internal_error e).
Proof.
  destruct (scan_cases suffix hashes) as [E | [[n E] | [e E]]]; rewrite E;
    eexists; (split; [reflexivity |]); eauto.
Qed.

Lemma lookup_answers net p :
  exists resp,
    snd (run net (try_catch (breachLookup p) on_error)) = Resolved resp /\
    (resp = degraded \/ resp = secure \/ (exists n, resp = breached n) \/
     exists e, resp = internal_error e).
Proof.
  destruct (net (range_request (prefix_of p))) as [e | r] eqn:H.
  - rewrite (lookup_unreachable _ _ _ H). eexists. split; [reflexivity |].
    eauto 6.
  - destruct (ok r) eqn:Hok.
    + destruct (reply_text r) as [text | e] eqn:Ht.
      * rewrite (lookup_scans _ _ _ _ H Hok Ht). cbn [snd].
        destruct (scan_answers net (suffix_of p) (split "010" text))
          as (resp & E & Hshape).
        exists resp. split; [exact E |].
        destruct Hshape as [-> | [[n ->] | [e ->]]]; eauto 6.
      * rewrite (lookup_unreadable _ _ _ _ H Hok Ht). eexists.
        split; [reflexivity |]. eauto 6.
    + rewrite (lookup_not_ok _ _ _ H Hok). eexists. split; [reflexivity |].
      eauto.
Qed.

Lemma handler_without_password net req :
  password_of req = None ->
  run net (handler req) = ([], Resolved preflight) \/
  run net (handler req) = ([], Resolved password_required) \/
  exists e, run net (handler req) = ([], Resolved (internal_error e)).
Proof.
  unfold password_of, handler, evaluate.
  destruct (String.eqb (req_method req) "OPTIONS"); [left; reflexivity |].
  destruct (req_json req) as [parsed | e].
  - destruct parsed as [| b | q | s | items | members];
      try (intros _; right; left; reflexivity).
    + intros _. right; right. eexists. reflexivity.
    + cbn [await bind destructure_password property].
      destruct (member "password" members)
        as [[| b | q | s | items | ms] |]; try discriminate;
        intros _; right; left;
        (rewrite guard_rejects; [reflexivity | discriminate]).
  - intros _. right; right. eexists. reflexivity.
Qed.

(** The handler never throws: it always resolves, to one of seven answers. *)
Lemma handler_resolves net req :
  exists resp,
    snd (run net (handler req)) = Resolved resp /\ handler_answer resp.
Proof.
  destruct (password_of req) as [p |] eqn:H.
  - destruct (String.eqb_spec p "") as [-> | Hp].
    + rewrite (handler_with_empty_password net req H).
      eexists. split; [reflexivity | constructor].
    + rewrite (handler_with_password req p H Hp). unfold stages.
      destruct (strengthIssues p) as [| i issues] eqn:Hi.
      * cbn [List.length Nat.ltb Nat.leb].
        destruct (lookup_answers net p)
          as (resp & E & [-> | [-> | [[n ->] | [e ->]]]]);
          eexists; (split; [exact E | constructor]).
      * eexists. split; [reflexivity |]. constructor. discriminate.
  - destruct (handler_without_password net req H) as [E | [E | [e E]]];
      rewrite E; eexists; (split; [reflexivity | constructor]).
Qed.

(** *** The Policy Evaluator *)

Lemma is_upper_spec c : is_upper c = true <-> uppercase c.
Proof.
  unfold is_upper, between, uppercase. change (code "A") with 65.
  change (code "Z") with 90. rewrite andb_true_iff, !Z.leb_le. tauto.
Qed.

Lemma is_lower_spec c : is_lower c = true <-> lowercase c.
Proof.
  unfold is_lower, between, lowercase. change (code "a") with 97.
  change (code "z") with 122. rewrite andb_true_iff, !Z.leb_le. tauto.
Qed.

Lemma is_digit_spec c : is_digit c = true <-> digit c.
Proof.
  unfold is_digit, between, digit. change (code "0") with 48.
  change (code "9") with 57. rewrite andb_true_iff, !Z.leb_le. tauto.
Qed.

Lemma is_special_spec c : is_special c = true <-> special c.
Proof.
  unfold is_special, special.
  rewrite negb_true_iff, !orb_false_iff.
  rewrite <- is_upper_spec, <- is_lower_spec, <- is_digit_spec.
  rewrite !not_true_iff_false. tauto.
Qed.

Lemma test_has cls (P : ascii -> Prop) s :
  (forall c, cls c = true <-> P c) -> test cls s = true <-> has P s.
Proof.
  intros HP. unfold has. induction s as [| c rest IH]; simpl.
  - split; [discriminate | intros (c & [] & _)].
  - rewrite orb_true_iff, IH, HP. split.
    + intros [H | (c' & Hin & H)]; eauto.
    + intros (c' & [<- | Hin] & H); eauto.
Qed.

Lemma includes_In array s : includes array s = true <-> In s array.
Proof.
  unfold includes. rewrite existsb_exists. split.
  - intros (x & Hin & E). apply String.eqb_eq in E. subst. exact Hin.
  - intros Hin. exists s. split; [exact Hin | apply String.eqb_refl].
Qed.

Lemma push_if_In c m issues x :
  In x (push_if c m issues) <-> In x issues \/ (c = true /\ x = m).
Proof.
  unfold push_if. destruct c.
  - rewrite in_app_iff. simpl. intuition.
  - intuition discriminate.
Qed.

(** Each message is in the list exactly when its rule is violated. *)
Lemma strengthIssues_In p x :
  In x (strengthIssues p) <->
  ((String.length p < 12)%nat /\ x = issue_length) \/
  (~ has uppercase p /\ x = issue_uppercase) \/
  (~ has lowercase p /\ x = issue_lowercase) \/
  (~ has digit p /\ x = issue_number) \/
  (~ has special p /\ x = issue_special) \/
  (In (toLowerCase p) commonPasswords /\ x = issue_common).
Proof.
  unfold strengthIssues. rewrite !push_if_In.
  rewrite !negb_true_iff, <- !not_true_iff_false.
  rewrite (test_has _ _ p is_upper_spec), (test_has _ _ p is_lower_spec),
    (test_has _ _ p is_digit_spec), (test_has _ _ p is_special_spec).
  rewrite includes_In, Nat.ltb_lt. simpl. tauto.
Qed.

Lemma subsequence_refl {A : Type} (l : list A) : subsequence l l.
Proof. induction l; constructor; assumption. Qed.

Lemma subsequence_app {A : Type} (l1 l1' l2 l2' : list A) :
  subsequence l1 l1' -> subsequence l2 l2' ->
  subsequence (l1 ++ l2) (l1' ++ l2').
Proof.
  intros H1 H2. induction H1; simpl; try constructor; assumption.
Qed.

Lemma subsequence_length {A : Type} (l l' : list A) :
  subsequence l l' -> (List.length l <= List.length l')%nat.
Proof. induction 1; simpl; lia. Qed.

Lemma subsequence_In {A : Type} (l l' : list A) x :
  subsequence l l' -> In x l -> In x l'.
Proof.
  induction 1; simpl; intros Hin; [contradiction | auto |].
  destruct Hin; auto.
Qed.

Lemma subsequence_NoDup {A : Type} (l l' : list A) :
  subsequence l l' -> NoDup l' -> NoDup l.
Proof.
  induction 1; intros Hn; [constructor | |]; inversion Hn; subst; auto.
  constructor; auto. intros Hin. eauto using subsequence_In.
Qed.

Lemma subsequence_push c m (issues rules : list string) :
  subsequence issues rules ->
  subsequence (push_if c m issues) (rules ++ [m]).
Proof.
  intros H. unfold push_if. destruct c.
  - apply subsequence_app; [exact H | apply subsequence_refl].
  - rewrite <- (app_nil_r issues).
    apply subsequence_app; [exact H |]. repeat constructor.
Qed.

Lemma strengthIssues_subsequence p : subsequence (strengthIssues p) all_issues.
Proof.
  unfold strengthIssues.
  change all_issues with
    (((((([] ++ [issue_length]) ++ [issue_uppercase]) ++ [issue_lowercase])
         ++ [issue_number]) ++ [issue_special]) ++ [issue_common]).
  repeat apply subsequence_push. constructor.
Qed.

Lemma all_issues_NoDup : NoDup all_issues.
Proof.
  unfold all_issues.
  repeat (constructor; [simpl; intuition discriminate |]). constructor.
Qed.

Lemma strengthIssues_compliant p :
  (12 <= String.length p)%nat ->
  has uppercase p -> has lowercase p -> has digit p -> has special p ->
  ~ In (toLowerCase p) commonPasswords ->
  strengthIssues p = [].
Proof.
  intros Hl Hu Hlo Hd Hs Hc.
  destruct (strengthIssues p) as [| x rest] eqn:E; [reflexivity |].
  assert (Hin : In x (strengthIssues p)) by (rewrite E; left; reflexivity).
  apply strengthIssues_In in Hin.
  destruct Hin as [[H _] | [[H _] | [[H _] | [[H _] | [[H _] | [H _]]]]]];
    try contradiction. lia.
Qed.

(** *** The digest on the vectors of FIPS 180 *)

Example sha1_abc : sha1 "abc" = "A9993E364706816ABA3E25717850C26C9CD0D89D".
Proof. vm_compute. reflexivity. Qed.

Example sha1_empty : sha1 "" = "DA39A3EE5E6B4B0D3255BFEF95601890AFD80709".
Proof. vm_compute. reflexivity. Qed.

Example sha1_two_blocks :
  sha1 "abcdbcdecdefdefgefghfghighijhijkijkljklmklmnlmnomnopnopq" =
  "84983E441C3BD26EBAAE4AA1F95129E5E54670F1".
Proof. vm_compute. reflexivity. Qed.

(** *** The shape of the digest *)

Lemma string_length_append (s1 s2 : string) :
  String.length (s1 ++ s2)%string = (String.length s1 + String.length s2)%nat.
Proof. induction s1 as [| c s1 IH]; simpl; [| rewrite IH]; reflexivity. Qed.

Lemma be_bytes_length count x : List.length (Sha1.be_bytes count x) = count.
Proof.
  unfold Sha1.be_bytes. rewrite length_map, length_rev, length_seq.
  reflexivity.
Qed.

Lemma digest_length msg : List.length (Sha1.digest msg) = 20%nat.
Proof.
  unfold Sha1.digest.
  set (h := fold_left Sha1.compress _ _). clearbody h.
  cbn [flat_map]. rewrite !length_app, !be_bytes_length. reflexivity.
Qed.

Lemma hex_pair_length b : String.length (padStart2 (toString16 b)) = 2%nat.
Proof. unfold toString16. destruct (b <? 16); reflexivity. Qed.

Lemma join_pairs_length (bytes : list Z) :
  String.length (join (map (fun b => padStart2 (toString16 b)) bytes)) =
  (2 * List.length bytes)%nat.
Proof.
  induction bytes as [| b rest IH]; [reflexivity |].
  cbn [map join fold_right]. fold (join (map (fun b => padStart2 (toString16 b)) rest)).
  rewrite string_length_append, hex_pair_length, IH. simpl. lia.
Qed.

Lemma toUpperCase_length s : String.length (toUpperCase s) = String.length s.
Proof. induction s as [| c s IH]; simpl; [| rewrite IH]; reflexivity. Qed.

(** The digest is rendered on 40 characters, whatever the message. *)
Lemma sha1_length message : String.length (sha1 message) = 40%nat.
Proof.
  unfold sha1. rewrite toUpperCase_length, join_pairs_length, digest_length.
  reflexivity.
Qed.

Lemma substring_to_length n s :
  (n <= String.length s)%nat -> String.length (substring_to n s) = n.
Proof.
  revert s. induction n as [| n IH]; intros s H; [reflexivity |].
  destruct s as [| c s]; simpl in *; [lia |]. rewrite IH; [reflexivity | lia].
Qed.

Lemma substring_halves n s : (substring_to n s ++ substring_from n s)%string = s.
Proof.
  revert s. induction n as [| n IH]; intros s; [reflexivity |].
  destruct s as [| c s]; simpl; [| rewrite IH]; reflexivity.
Qed.

Lemma prefix_of_length p : String.length (prefix_of p) = 5%nat.
Proof.
  unfold prefix_of. apply substring_to_length. rewrite sha1_length. lia.
Qed.

(** *** The handler on a password that passed the policy *)

Lemma handler_unreachable net req p e :
  password_of req = Some p -> strengthIssues p = [] ->
  net (range_request (prefix_of p)) = NetworkFailure e ->
  run net (handler req) =
  ([range_request (prefix_of p)], Resolved (internal_error e)).
Proof.
  intros H Hi Hn. rewrite (handler_looks_up req p H Hi).
  apply lookup_unreachable, Hn.
Qed.

(** The remote service answers with a status outside 200-299: the degraded
    answer. *)
Lemma handler_not_ok net req p r :
  password_of req = Some p -> strengthIssues p = [] ->
  net (range_request (prefix_of p)) = Answer r -> ok r = false ->
  run net (handler req) = ([range_request (prefix_of p)], Resolved degraded).
Proof.
  intros H Hi Hn Hok. rewrite (handler_looks_up req p H Hi).
  apply (lookup_not_ok _ _ _ Hn Hok).
Qed.

Lemma evaluator_short p :
  (String.length p < 12)%nat -> In issue_length (strengthIssues p).
Proof. intros H. apply strengthIssues_In. left. split; [exact H | reflexivity]. Qed.

Lemma evaluator_common p :
  In issue_common (strengthIssues p) <-> In (toLowerCase p) commonPasswords.
Proof.
  rewrite strengthIssues_In. split.
  - intros [[_ H] | [[_ H] | [[_ H] | [[_ H] | [[_ H] | [H _]]]]]];
      (discriminate H || exact H).
  - intros H. do 5 right. split; [exact H | reflexivity].
Qed.

Lemma common_not_empty p : In (toLowerCase p) commonPasswords -> p <> "".
Proof.
  intros H ->. simpl in H.
  repeat (destruct H as [H | H]; [discriminate H |]). exact H.
Qed.

(* ===================================================================== *)
(** ** The claims *)
(* ===================================================================== *)

(** C1 (the code at the input where it departs from the claim): the password
    "Correct-Horse-799" passes every rule of the Policy Evaluator; when the
    call to the range API fails at the network level, [fetch] rejects, the
    [catch] block of the handler takes over, and the answer is the 500
    "Internal server error" response, with no [apiError] field. *)
Theorem unreachable_range_api_answers_500 :
  strengthIssues "Correct-Horse-799" = [] /\
  run unreachable (handler (post "Correct-Horse-799")) =
    ([range_request "820ED"],
     Resolved (internal_error (TypeError "error sending request"))) /\
  status (internal_error (TypeError "error sending request")) = 500 /\
  field "apiError" (internal_error (TypeError "error sending request")) = None.
Proof. vm_compute. repeat split. Qed.

(** C2: when the Policy Evaluator, run on the password of a request, reports
    an issue, the handler answers at once, sending nothing to the network,
    with [isWeak = true], [isBreached = false] and the issues; and in every
    response of the handler that has a [breachCount], [isWeak] is false. *)
Theorem policy_failure_short_circuits :
  (forall net req p,
     password_of req = Some p -> p <> "" -> strengthIssues p <> [] ->
     run net (handler req) = ([], Resolved (weak (strengthIssues p))) /\
     field "isWeak" (weak (strengthIssues p)) = Some (JBool true) /\
     field "isBreached" (weak (strengthIssues p)) = Some (JBool false) /\
     field "issues" (weak (strengthIssues p)) =
       Some (JArr (map JStr (strengthIssues p)))) /\
  (forall net req resp,
     snd (run net (handler req)) = Resolved resp ->
     field "breachCount" resp <> None ->
     field "isWeak" resp = Some (JBool false)).
Proof.
  split.
  - intros net req p H Hp Hi. split; [apply (handler_weak net req p H Hp Hi) |].
    repeat split.
  - intros net req resp Hrun Hcount.
    destruct (handler_resolves net req) as (resp' & E & Hshape).
    rewrite E in Hrun. injection Hrun as <-.
    destruct Hshape; try reflexivity; exfalso; apply Hcount; reflexivity.
Qed.

Lemma policy_failure_short_circuits_witness :
  (password_of (post "Password") = Some "Password" /\
   "Password" <> "" /\ strengthIssues "Password" <> [] /\
   run unreachable (handler (post "Password")) =
     ([], Resolved (weak (strengthIssues "Password")))) /\
  (snd (run (answering 200 "4EE8824F5A5A0665FEF55A98D362BBB5B11:42")
          (handler (post "Correct-Horse-799"))) =
     Resolved (breached (Some 42)) /\
   field "breachCount" (breached (Some 42)) <> None /\
   field "isWeak" (breached (Some 42)) = Some (JBool false)).
Proof.
  assert (H1 : password_of (post "Password") = Some "Password")
    by reflexivity.
  assert (H2 : "Password" <> "") by discriminate.
  assert (H3 : strengthIssues "Password" <> [])
    by (vm_compute; discriminate).
  assert (H4 : snd (run (answering 200 "4EE8824F5A5A0665FEF55A98D362BBB5B11:42")
                      (handler (post "Correct-Horse-799"))) =
               Resolved (breached (Some 42)))
    by (vm_compute; reflexivity).
  assert (H5 : field "breachCount" (breached (Some 42)) <> None)
    by discriminate.
  split.
  - split; [exact H1 |]. split; [exact H2 |]. split; [exact H3 |].
    exact (proj1 (proj1 policy_failure_short_circuits unreachable _ _
                    H1 H2 H3)).
  - split; [exact H4 |]. split; [exact H5 |].
    exact (proj2 policy_failure_short_circuits _ _ _ H4 H5).
Defined.

(** C3, as the specification states it, fails: the digest of "password" is
    not the 39-character string of the claim, its suffix is not the
    34-character one, and the lookup run against an answer holding the line
    of the claim finds no match (through the handler, "password" is turned
    down by the Policy Evaluator and nothing is looked up). *)
Lemma truncated_suffix_does_not_match :
  sha1 "password" <> "5BAA61E4C9B93F3F0682250B6CF8331B7EE68FD" /\
  suffix_of "password" <> "1E4C9B93F3F0682250B6CF8331B7EE68FD" /\
  run (answering 200 "1E4C9B93F3F0682250B6CF8331B7EE68FD:3730471")
      (try_catch (breachLookup "password") on_error) =
    ([range_request "5BAA6"], Resolved secure) /\
  field "isBreached" secure = Some (JBool false) /\
  fst (run (answering 200 "1E4C9B93F3F0682250B6CF8331B7EE68FD:3730471")
         (handler (post "password"))) = [].
Proof. vm_compute. repeat split; discriminate. Qed.

(** C3, amended: the digest of "password" is
    5BAA61E4C9B93F3F0682250B6CF8331B7EE68FD8, of prefix 5BAA6 and suffix
    1E4C9B93F3F0682250B6CF8331B7EE68FD8; the Breach Lookup Client, given an
    answer of the range API in which the line
    1E4C9B93F3F0682250B6CF8331B7EE68FD8:3730471 is the first that names the
    suffix, answers [isBreached = true] with [breachCount = 3730471]; given
    an answer in which no line names exactly that suffix, it answers
    [isBreached = false, isWeak = false]. *)
Theorem password_test_vector :
  sha1 "password" = "5BAA61E4C9B93F3F0682250B6CF8331B7EE68FD8" /\
  prefix_of "password" = "5BAA6" /\
  suffix_of "password" = "1E4C9B93F3F0682250B6CF8331B7EE68FD8" /\
  (forall net r text before after,
     net (range_request "5BAA6") = Answer r -> ok r = true ->
     reply_text r = Resolved text ->
     split "010" text =
       before ++ "1E4C9B93F3F0682250B6CF8331B7EE68FD8:3730471" :: after ->
     forallb (fun line =>
       negb (names "1E4C9B93F3F0682250B6CF8331B7EE68FD8" line)) before = true ->
     run net (try_catch (breachLookup "password") on_error) =
       ([range_request "5BAA6"], Resolved (breached (Some 3730471))) /\
     field "isBreached" (breached (Some 3730471)) = Some (JBool true) /\
     field "breachCount" (breached (Some 3730471)) =
       Some (JNum (inject_Z 3730471))) /\
  (forall net r text,
     net (range_request "5BAA6") = Answer r -> ok r = true ->
     reply_text r = Resolved text ->
     forallb (fun line =>
       negb (names "1E4C9B93F3F0682250B6CF8331B7EE68FD8" line))
       (split "010" text) = true ->
     run net (try_catch (breachLookup "password") on_error) =
       ([range_request "5BAA6"], Resolved secure) /\
     field "isBreached" secure = Some (JBool false)).
Proof.
  assert (Hp : prefix_of "password" = "5BAA6") by (vm_compute; reflexivity).
  assert (Hs : suffix_of "password" = "1E4C9B93F3F0682250B6CF8331B7EE68FD8")
    by (vm_compute; reflexivity).
  split; [vm_compute; reflexivity |]. split; [exact Hp |].
  split; [exact Hs |]. split.
  - intros net r text before after Hn Hok Ht Hsplit Hbefore.
    rewrite <- Hp in Hn. rewrite (lookup_scans _ _ _ _ Hn Hok Ht).
    rewrite Hp, Hs, Hsplit.
    rewrite (scan_found _ before _ "3730471" after Hbefore);
      [| vm_compute; reflexivity | vm_compute; reflexivity].
    repeat split.
  - intros net r text Hn Hok Ht Hnone.
    rewrite <- Hp in Hn. rewrite (lookup_scans _ _ _ _ Hn Hok Ht).
    rewrite Hp, Hs, (scan_clean _ _ Hnone). repeat split.
Qed.

Lemma password_test_vector_witness :
  run (answering 200
         "0018A45C4D1DEF81644B54AB7F969B88D65:1
1E4C9B93F3F0682250B6CF8331B7EE68FD8:3730471
011053FD0102E94D6AE2F8B83D76FAF94F6:2")
      (try_catch (breachLookup "password") on_error) =
    ([range_request "5BAA6"], Resolved (breached (Some 3730471))) /\
  run (answering 200
         "1e4c9b93f3f0682250b6cf8331b7ee68fd8:3730471
1E4C9B93F3F0682250B6CF8331B7EE68FD:3730471")
      (try_catch (breachLookup "password") on_error) =
    ([range_request "5BAA6"], Resolved secure).
Proof.
  destruct password_test_vector as (_ & _ & _ & Hfound & Hclean).
  split.
  - refine (proj1 (Hfound (answering 200 _) (mkReply 200 (Resolved _) _) _
              ["0018A45C4D1DEF81644B54AB7F969B88D65:1"]
              ["011053FD0102E94D6AE2F8B83D76FAF94F6:2"]
              eq_refl eq_refl eq_refl _ _)); vm_compute; reflexivity.
  - refine (proj1 (Hclean (answering 200 _) (mkReply 200 (Resolved _) _) _
              eq_refl eq_refl eq_refl _)); vm_compute; reflexivity.
Defined.

(** The range API ends its lines with CR LF; the count is trimmed. *)
Example crlf_answer_is_read :
  run (answering 200
         ("0018A45C4D1DEF81644B54AB7F969B88D65:1" ++
          String "013" (String "010"
            ("1E4C9B93F3F0682250B6CF8331B7EE68FD8:3730471" ++
             String "013" (String "010" EmptyString))))%string)
      (try_catch (breachLookup "password") on_error) =
    ([range_request "5BAA6"], Resolved (breached (Some 3730471))).
Proof. vm_compute. reflexivity. Qed.

(** C4, as the specification states it, fails at the empty string: it is
    shorter than 12 characters, and the handler answers it with the 400
    "Password is required" response, which has no [isWeak] field; the Policy
    Evaluator is not run. *)
Lemma empty_password_is_answered_400 :
  (String.length "" < 12)%nat /\
  password_of (post "") = Some "" /\
  run unreachable (handler (post "")) = ([], Resolved password_required) /\
  status password_required = 400 /\
  field "isWeak" password_required = None /\
  field "issues" password_required = None.
Proof. repeat split. simpl. lia. Qed.

(** C4, amended: for every password that is not the empty string and is
    shorter than 12 characters, whatever its characters, the handler answers
    200 with [isWeak = true] and a list of issues that holds the length
    complaint. *)
Theorem short_password_is_weak net req p :
  password_of req = Some p -> p <> "" -> (String.length p < 12)%nat ->
  run net (handler req) = ([], Resolved (weak (strengthIssues p))) /\
  status (weak (strengthIssues p)) = 200 /\
  field "isWeak" (weak (strengthIssues p)) = Some (JBool true) /\
  field "issues" (weak (strengthIssues p)) =
    Some (JArr (map JStr (strengthIssues p))) /\
  In issue_length (strengthIssues p).
Proof.
  intros H Hp Hlen. pose proof (evaluator_short p Hlen) as Hin.
  split; [| repeat split; exact Hin].
  apply (handler_weak net req p H Hp). intros E. rewrite E in Hin. exact Hin.
Qed.

Lemma short_password_is_weak_witness :
  password_of (post "Ab1!") = Some "Ab1!" /\ "Ab1!" <> "" /\
  (String.length "Ab1!" < 12)%nat /\
  run unreachable (handler (post "Ab1!")) =
    ([], Resolved (weak (strengthIssues "Ab1!"))) /\
  In issue_length (strengthIssues "Ab1!").
Proof.
  assert (H1 : password_of (post "Ab1!") = Some "Ab1!") by reflexivity.
  assert (H2 : "Ab1!" <> "") by discriminate.
  assert (H3 : (String.length "Ab1!" < 12)%nat) by (simpl; lia).
  pose proof (short_password_is_weak unreachable _ _ H1 H2 H3)
    as (Hrun & _ & _ & _ & Hin).
  split; [exact H1 |]. split; [exact H2 |]. split; [exact H3 |].
  split; [exact Hrun | exact Hin].
Defined.

(** C5: for a password that reaches the breach lookup, the handler sends
    exactly one request, the one built from the first 5 characters of the
    digest and nothing else; so two passwords whose digests share those 5
    characters make the handler send the same requests, whatever the network
    does. *)
Theorem outbound_request_keyed_by_prefix net1 net2 req1 req2 p1 p2 :
  password_of req1 = Some p1 -> strengthIssues p1 = [] ->
  password_of req2 = Some p2 -> strengthIssues p2 = [] ->
  prefix_of p1 = prefix_of p2 ->
  fst (run net1 (handler req1)) = [range_request (prefix_of p1)] /\
  String.length (prefix_of p1) = 5%nat /\
  (prefix_of p1 ++ suffix_of p1)%string = sha1 p1 /\
  fst (run net1 (handler req1)) = fst (run net2 (handler req2)).
Proof.
  intros H1 Hi1 H2 Hi2 Hpre.
  rewrite (handler_looks_up req1 p1 H1 Hi1), (handler_looks_up req2 p2 H2 Hi2).
  rewrite !lookup_sends_one, Hpre. repeat split.
  - rewrite <- Hpre. apply prefix_of_length.
  - rewrite <- Hpre. apply substring_halves.
Qed.

Lemma outbound_request_keyed_by_prefix_witness :
  "Correct-Horse-799" <> "Correct-Horse-877" /\
  sha1 "Correct-Horse-799" <> sha1 "Correct-Horse-877" /\
  prefix_of "Correct-Horse-799" = prefix_of "Correct-Horse-877" /\
  fst (run unreachable (handler (post "Correct-Horse-799"))) =
    fst (run (answering 200 "") (handler (post "Correct-Horse-877"))).
Proof.
  assert (Hpre : prefix_of "Correct-Horse-799" = prefix_of "Correct-Horse-877")
    by (vm_compute; reflexivity).
  split; [discriminate |]. split; [vm_compute; discriminate |].
  split; [exact Hpre |].
  refine (proj2 (proj2 (proj2
    (outbound_request_keyed_by_prefix unreachable (answering 200 "")
       (post "Correct-Horse-799") (post "Correct-Horse-877")
       "Correct-Horse-799" "Correct-Horse-877" eq_refl _ eq_refl _ Hpre))));
    vm_compute; reflexivity.
Defined.

(** C6: a password of at least 12 characters that has a letter A-Z, a letter
    a-z, a digit 0-9 and a character outside these, and whose lower-case form
    is not on the deny-list, gets no issue from the Policy Evaluator, and the
    handler goes on to the breach lookup: it sends the range request. *)
Theorem compliant_password_reaches_lookup p :
  (12 <= String.length p)%nat ->
  has uppercase p -> has lowercase p -> has digit p -> has special p ->
  ~ In (toLowerCase p) commonPasswords ->
  strengthIssues p = [] /\
  forall net req,
    password_of req = Some p ->
    handler req = try_catch (breachLookup p) on_error /\
    fst (run net (handler req)) = [range_request (prefix_of p)].
Proof.
  intros Hl Hu Hlo Hd Hs Hc.
  pose proof (strengthIssues_compliant p Hl Hu Hlo Hd Hs Hc) as Hi.
  split; [exact Hi |]. intros net req H.
  rewrite (handler_looks_up req p H Hi). split; [reflexivity |].
  apply lookup_sends_one.
Qed.

Lemma compliant_password_reaches_lookup_witness :
  strengthIssues "Correct-Horse-799" = [] /\
  fst (run unreachable (handler (post "Correct-Horse-799"))) =
    [range_request (prefix_of "Correct-Horse-799")].
Proof.
  assert (Hl : (12 <= String.length "Correct-Horse-799")%nat) by (simpl; lia).
  assert (Hu : has uppercase "Correct-Horse-799").
  { exists "C"%char. split; [simpl; tauto |].
    unfold uppercase. change (code "C") with 67. lia. }
  assert (Hlo : has lowercase "Correct-Horse-799").
  { exists "o"%char. split; [simpl; tauto |].
    unfold lowercase. change (code "o") with 111. lia. }
  assert (Hd : has digit "Correct-Horse-799").
  { exists "7"%char. split; [simpl; tauto |].
    unfold digit. change (code "7") with 55. lia. }
  assert (Hs : has special "Correct-Horse-799").
  { exists "-"%char. split; [simpl; tauto |].
    unfold special, uppercase, lowercase, digit.
    change (code "-") with 45. lia. }
  assert (Hc : ~ In (toLowerCase "Correct-Horse-799") commonPasswords).
  { simpl. intros H.
    repeat (destruct H as [H | H]; [discriminate H |]). exact H. }
  pose proof (compliant_password_reaches_lookup _ Hl Hu Hlo Hd Hs Hc)
    as [Hi Hreq].
  split; [exact Hi |].
  exact (proj2 (Hreq unreachable (post "Correct-Horse-799") eq_refl)).
Defined.

(** C7: the deny-list is matched on the lower-case form of the password: when
    that form is an entry of the list the issues hold the common-password
    message (and only then), and the handler answers with them; so two
    passwords that differ by case only get the message together.  "Password"
    gets it from the entry "password". *)
Theorem deny_list_is_case_insensitive :
  (forall p,
     In (toLowerCase p) commonPasswords ->
     In issue_common (strengthIssues p) /\
     (forall q, toLowerCase q = toLowerCase p ->
                In issue_common (strengthIssues q)) /\
     forall net req,
       password_of req = Some p ->
       run net (handler req) = ([], Resolved (weak (strengthIssues p)))) /\
  toLowerCase "Password" = "password" /\
  In "password" commonPasswords /\
  In issue_common (strengthIssues "Password").
Proof.
  split.
  - intros p H. split; [apply evaluator_common, H |]. split.
    + intros q E. apply evaluator_common. rewrite E. exact H.
    + intros net req Hreq.
      apply (handler_weak net req p Hreq (common_not_empty p H)).
      apply evaluator_common in H. intros E. rewrite E in H. exact H.
  - split; [reflexivity |]. split; [left; reflexivity |].
    apply evaluator_common. left. reflexivity.
Qed.

Lemma deny_list_is_case_insensitive_witness :
  In (toLowerCase "PASSWORD123") commonPasswords /\
  In issue_common (strengthIssues "PASSWORD123") /\
  In issue_common (strengthIssues "PassWord123") /\
  run unreachable (handler (post "PASSWORD123")) =
    ([], Resolved (weak (strengthIssues "PASSWORD123"))).
Proof.
  assert (H : In (toLowerCase "PASSWORD123") commonPasswords)
    by (right; left; reflexivity).
  pose proof (proj1 deny_list_is_case_insensitive _ H) as (H1 & H2 & H3).
  split; [exact H |]. split; [exact H1 |].
  split; [exact (H2 "PassWord123" eq_refl) |].
  exact (H3 unreachable (post "PASSWORD123") eq_refl).
Defined.

(** A body that is the JSON value [null] is another matter: destructuring it
    throws, and the [catch] block answers 500. *)
Lemma null_body_is_answered_500 :
  exists e,
    run unreachable (handler (mkRequest "POST" (Resolved JNull))) =
      ([], Resolved (internal_error e)) /\
    status (internal_error e) = 500.
Proof. eexists. split; reflexivity. Qed.

(** C8: a request (POST, or any method but OPTIONS) whose body is a JSON
    object without a [password] member, or with one that is not a string (and
    so for any JSON body other than [null]: arrays, numbers, strings and
    booleans have no such property), is answered 400 with the body
    [{ "error": "Password is required" }], and nothing is sent to the
    network. *)
Theorem missing_password_is_rejected net m parsed :
  m <> "OPTIONS" ->
  parsed <> JNull ->
  typeof (property "password" parsed) <> "string" ->
  run net (handler (mkRequest m (Resolved parsed))) =
    ([], Resolved password_required) /\
  status password_required = 400 /\
  body password_required =
    Some (JObj [("error", JStr "Password is required")]).
Proof.
  intros Hm Hn Ht. split; [| split; reflexivity].
  unfold handler, evaluate. cbn [req_method req_json].
  apply String.eqb_neq in Hm. rewrite Hm. cbn [await bind].
  assert (Hd : destructure_password parsed =
               Return (property "password" parsed))
    by (destruct parsed; try reflexivity; contradiction).
  rewrite Hd. cbn [bind]. rewrite (guard_rejects _ Ht). reflexivity.
Qed.

Lemma missing_password_is_rejected_witness :
  "POST" <> "OPTIONS" /\
  JObj [] <> JNull /\
  typeof (property "password" (JObj [])) <> "string" /\
  run unreachable (handler (mkRequest "POST" (Resolved (JObj [])))) =
    ([], Resolved password_required) /\
  typeof (property "password"
            (JObj [("password", JNum (inject_Z 12345678))])) <> "string" /\
  run unreachable
    (handler (mkRequest "POST"
       (Resolved (JObj [("password", JNum (inject_Z 12345678))])))) =
    ([], Resolved password_required).
Proof.
  assert (Hm : "POST" <> "OPTIONS") by discriminate.
  assert (Hn : JObj [] <> JNull) by discriminate.
  assert (Hn' : JObj [("password", JNum (inject_Z 12345678))] <> JNull)
    by discriminate.
  assert (H1 : typeof (property "password" (JObj [])) <> "string")
    by discriminate.
  assert (H2 : typeof (property "password"
                         (JObj [("password", JNum (inject_Z 12345678))]))
               <> "string") by discriminate.
  split; [exact Hm |]. split; [exact Hn |]. split; [exact H1 |].
  split;
    [exact (proj1 (missing_password_is_rejected unreachable _ _ Hm Hn H1)) |].
  split; [exact H2 |].
  exact (proj1 (missing_password_is_rejected unreachable _ _ Hm Hn' H2)).
Defined.

(** C9: [checkPassword] never rejects.  Whatever the network does with its
    one request it resolves to a result: the parsed body when the status is
    in 200-299 and the body parses, and otherwise (a status outside 200-299,
    a failure of the call itself, a body that does not parse) the result
    made by its [catch] block, which has [apiError = true],
    [isBreached = false] and [isWeak = false]. *)
Theorem checkPassword_never_rejects env password net :
  exists result,
    run net (PasswordValidation.checkPassword env password) =
      ([PasswordValidation.check_request env password], Resolved result) /\
    match net (PasswordValidation.check_request env password) with
    | NetworkFailure _ => result = PasswordValidation.unable_to_verify
    | Answer r =>
        if ok r
        then match reply_json r with
             | Resolved parsed => result = parsed
             | Rejected _ => result = PasswordValidation.unable_to_verify
             end
        else result = PasswordValidation.unable_to_verify
    end /\
    property "apiError" PasswordValidation.unable_to_verify =
      Some (JBool true) /\
    property "isBreached" PasswordValidation.unable_to_verify =
      Some (JBool false) /\
    property "isWeak" PasswordValidation.unable_to_verify =
      Some (JBool false).
Proof.
  unfold PasswordValidation.checkPassword, fetch.
  cbn [bind try_catch run].
  destruct (net (PasswordValidation.check_request env password)) as [e | r].
  - eexists. repeat split.
  - cbn [bind try_catch run]. destruct (ok r); cbn [negb].
    + destruct (reply_json r) as [parsed | e]; eexists; repeat split.
    + eexists. repeat split.
Qed.

(** C10: the issues come in the order of the rules (length, upper case, lower
    case, digit, special character, common password), each message at most
    once, so at most six of them. *)
Theorem issues_follow_rule_order p :
  subsequence (strengthIssues p) all_issues /\
  NoDup (strengthIssues p) /\
  (List.length (strengthIssues p) <= 6)%nat.
Proof.
  pose proof (strengthIssues_subsequence p) as H.
  split; [exact H |]. split.
  - apply (subsequence_NoDup _ _ H all_issues_NoDup).
  - apply (subsequence_length _ _ H).
Qed.

(* ===================================================================== *)
(** ** Further properties of the edge function *)
(* ===================================================================== *)

(** *** Splitting *)

Lemma split_cons sep c rest :
  split sep (String c rest) =
  if Ascii.eqb c sep then EmptyString :: split sep rest
  else match split sep rest with
       | [] => [String c EmptyString]
       | piece :: pieces => String c piece :: pieces
       end.
Proof. reflexivity. Qed.

Lemma split_first sep s : nth_error (split sep s) 0 = Some (before sep s).
Proof.
  induction s as [| c rest IH]; [reflexivity |].
  rewrite split_cons. cbn [before]. destruct (Ascii.eqb c sep); [reflexivity |].
  destruct (split sep rest) as [| piece pieces]; [discriminate IH |].
  cbn in IH |- *. injection IH as ->. reflexivity.
Qed.

Lemma split_second sep s : nth_error (split sep s) 1 = after_first sep s.
Proof.
  induction s as [| c rest IH]; [reflexivity |].
  rewrite split_cons. cbn [after_first].
  destruct (Ascii.eqb c sep).
  - cbn [nth_error]. apply (split_first sep rest).
  - destruct (split sep rest) as [| piece pieces]; [exact IH | exact IH].
Qed.

Lemma names_before suffix line :
  names suffix line = String.eqb (before ":" line) suffix.
Proof. unfold names. rewrite split_first. reflexivity. Qed.

Lemma before_append sep s rest :
  occurs sep s = false ->
  before sep (s ++ String sep rest)%string = s.
Proof.
  induction s as [| c s IH]; cbn [append before occurs].
  - rewrite Ascii.eqb_refl. reflexivity.
  - intros H. apply orb_false_iff in H as [Hc Hs]. rewrite Hc, (IH Hs).
    reflexivity.
Qed.

Lemma before_whole sep s : occurs sep s = false -> before sep s = s.
Proof.
  induction s as [| c s IH]; cbn [before occurs]; [reflexivity |].
  intros H. apply orb_false_iff in H as [Hc Hs]. rewrite Hc, (IH Hs).
  reflexivity.
Qed.

Lemma before_cases sep s :
  s = before sep s \/
  exists rest, s = (before sep s ++ String sep rest)%string.
Proof.
  induction s as [| c s IH]; cbn [before]; [left; reflexivity |].
  destruct (Ascii.eqb_spec c sep) as [-> | Hc].
  - right. exists s. reflexivity.
  - destruct IH as [IH | [rest IH]].
    + left. f_equal. exact IH.
    + right. exists rest. cbn [append]. f_equal. exact IH.
Qed.

(** *** The characters of the digest *)

Lemma every_nil P : every P "".
Proof. intros c []. Qed.

Lemma every_cons P c s : every P (String c s) <-> P c /\ every P s.
Proof.
  unfold every. cbn [list_ascii_of_string In]. split.
  - intros H. split; [apply H; left; reflexivity |].
    intros c' Hc. apply H. right. exact Hc.
  - intros [Hc Hs] c' [<- | Hin]; [exact Hc | apply Hs, Hin].
Qed.

Lemma every_append P s1 s2 :
  every P s1 -> every P s2 -> every P (s1 ++ s2)%string.
Proof.
  induction s1 as [| c s1 IH]; cbn [append]; [trivial |].
  rewrite !every_cons. intros [Hc H1] H2. split; [exact Hc | apply IH; trivial].
Qed.

Lemma every_substring_to P n s : every P s -> every P (substring_to n s).
Proof.
  revert s. induction n as [| n IH]; intros s H; [apply every_nil |].
  destruct s as [| c s]; [apply every_nil |]. cbn [substring_to].
  apply every_cons in H as [Hc Hs]. apply every_cons. split; auto.
Qed.

Lemma every_substring_from P n s : every P s -> every P (substring_from n s).
Proof.
  revert s. induction n as [| n IH]; intros s H; [exact H |].
  destruct s as [| c s]; [apply every_nil |]. cbn [substring_from].
  apply every_cons in H as [_ Hs]. apply IH, Hs.
Qed.

Lemma is_hex_upper_spec c : is_hex_upper c = true -> hex_upper c.
Proof.
  unfold is_hex_upper, hex_upper. rewrite orb_true_iff, is_digit_spec.
  intros [H | H]; [left; exact H | right].
  unfold between in H. change (code "A") with 65 in H.
  change (code "F") with 70 in H.
  apply andb_true_iff in H as [H1 H2]. apply Z.leb_le in H1, H2. lia.
Qed.

Lemma hex_digit_upper d : 0 <= d < 16 -> hex_upper (upper_unit (hex_digit d)).
Proof.
  intros H.
  assert (E : d = 0 \/ d = 1 \/ d = 2 \/ d = 3 \/ d = 4 \/ d = 5 \/ d = 6 \/
              d = 7 \/ d = 8 \/ d = 9 \/ d = 10 \/ d = 11 \/ d = 12 \/
              d = 13 \/ d = 14 \/ d = 15) by lia.
  repeat (destruct E as [-> | E]; [apply is_hex_upper_spec; reflexivity |]).
  subst d. apply is_hex_upper_spec. reflexivity.
Qed.

Lemma hex_pair_upper b :
  0 <= b < 256 -> every hex_upper (toUpperCase (padStart2 (toString16 b))).
Proof.
  intros H. unfold toString16. destruct (Z.ltb_spec b 16) as [Hlt | Hge].
  - cbn [padStart2 toUpperCase]. apply every_cons. split.
    + apply is_hex_upper_spec. reflexivity.
    + apply every_cons. split; [apply hex_digit_upper; lia | apply every_nil].
  - cbn [padStart2 toUpperCase]. apply every_cons. split.
    + apply hex_digit_upper. split.
      * apply Z.div_pos; lia.
      * apply Z.div_lt_upper_bound; lia.
    + apply every_cons. split; [| apply every_nil].
      apply hex_digit_upper. apply Z.mod_pos_bound. lia.
Qed.

Lemma toUpperCase_append s1 s2 :
  toUpperCase (s1 ++ s2)%string = (toUpperCase s1 ++ toUpperCase s2)%string.
Proof.
  induction s1 as [| c s1 IH]; cbn [append toUpperCase]; [| rewrite IH];
    reflexivity.
Qed.

Lemma be_bytes_range count x :
  Forall (fun b => 0 <= b < 256) (Sha1.be_bytes count x).
Proof.
  unfold Sha1.be_bytes. apply Forall_map, Forall_forall. intros i _.
  change 255 with (Z.ones 8). rewrite Z.land_ones by lia.
  apply Z.mod_pos_bound. lia.
Qed.

Lemma digest_range msg : Forall (fun b => 0 <= b < 256) (Sha1.digest msg).
Proof.
  unfold Sha1.digest.
  set (h := fold_left Sha1.compress _ _). clearbody h.
  cbn [flat_map]. rewrite !Forall_app.
  repeat split; try apply be_bytes_range. constructor.
Qed.

Lemma sha1_upper_hex message : every hex_upper (sha1 message).
Proof.
  unfold sha1. generalize (digest_range (utf8_encode message)).
  generalize (Sha1.digest (utf8_encode message)). intros bytes H.
  induction H as [| b bytes Hb _ IH]; [apply every_nil |].
  cbn [map join fold_right].
  fold (join (map (fun b => padStart2 (toString16 b)) bytes)).
  rewrite toUpperCase_append. apply every_append; [| exact IH].
  apply hex_pair_upper, Hb.
Qed.

Lemma hex_upper_not_colon s : every hex_upper s -> occurs ":" s = false.
Proof.
  induction s as [| c s IH]; [reflexivity |].
  rewrite every_cons. intros [Hc Hs]. cbn [occurs]. rewrite (IH Hs).
  rewrite orb_false_r. apply Ascii.eqb_neq. intros ->.
  unfold hex_upper, digit in Hc. change (code ":") with 58 in Hc. lia.
Qed.

Lemma substring_from_length n s :
  String.length (substring_from n s) = (String.length s - n)%nat.
Proof.
  revert s. induction n as [| n IH]; intros s; [simpl; lia |].
  destruct s as [| c s]; [reflexivity |]. cbn [substring_from String.length].
  rewrite IH. lia.
Qed.

Lemma suffix_of_length message : String.length (suffix_of message) = 35%nat.
Proof.
  unfold suffix_of. rewrite substring_from_length, sha1_length. reflexivity.
Qed.

(** X1: whatever the message, [sha1] renders the digest on 40 characters,
    each an upper-case hexadecimal digit; so the prefix sent to the range API
    has 5 such characters and the suffix compared locally has 35, with no
    colon among them. *)
Theorem sha1_is_forty_upper_hex message :
  String.length (sha1 message) = 40%nat /\
  every hex_upper (sha1 message) /\
  String.length (prefix_of message) = 5%nat /\
  every hex_upper (prefix_of message) /\
  String.length (suffix_of message) = 35%nat /\
  every hex_upper (suffix_of message).
Proof.
  pose proof (sha1_upper_hex message) as H.
  split; [apply sha1_length |]. split; [exact H |].
  split; [apply prefix_of_length |].
  split; [apply every_substring_to, H |].
  split; [apply suffix_of_length | apply every_substring_from, H].
Qed.

Lemma suffix_has_no_colon p : occurs ":" (suffix_of p) = false.
Proof.
  apply hex_upper_not_colon, every_substring_from, sha1_upper_hex.
Qed.

(** X2: a line of the range API's answer names the suffix of a password
    exactly when it is the suffix itself, or the suffix followed by a colon
    and anything: the comparison is on the whole text before the first
    colon, character for character. *)
Theorem line_names_suffix_exactly p line :
  names (suffix_of p) line = true <->
  line = suffix_of p \/
  exists rest, line = (suffix_of p ++ String ":" rest)%string.
Proof.
  rewrite names_before, String.eqb_eq. split.
  - intros E. destruct (before_cases ":" line) as [H | [rest H]];
      rewrite E in H; eauto.
  - intros [-> | [rest ->]].
    + apply before_whole, suffix_has_no_colon.
    + apply before_append, suffix_has_no_colon.
Qed.

(** *** The scan and the first line that names the suffix *)

Lemma scan_decided net suffix hashes :
  snd (run net (try_catch (scan suffix hashes) on_error)) =
  decided suffix hashes.
Proof.
  unfold decided. induction hashes as [| line rest IH]; [reflexivity |].
  cbn [find]. destruct (names suffix line) eqn:E.
  - unfold names in E. cbn [scan]. rewrite E, split_second.
    destruct (after_first ":" line); reflexivity.
  - rewrite (scan_skips _ _ _ E). exact IH.
Qed.

Lemma lookup_run net p :
  run net (try_catch (breachLookup p) on_error) =
  ([range_request (prefix_of p)], lookup_answer net p).
Proof.
  unfold lookup_answer.
  destruct (net (range_request (prefix_of p))) as [e | r] eqn:H.
  - apply (lookup_unreachable _ _ _ H).
  - destruct (ok r) eqn:Hok.
    + destruct (reply_text r) as [text | e] eqn:Ht.
      * rewrite (lookup_scans _ _ _ _ H Hok Ht), scan_decided. reflexivity.
      * apply (lookup_unreadable _ _ _ _ H Hok Ht).
    + apply (lookup_not_ok _ _ _ H Hok).
Qed.



(** *** The handler as a function of the request and the network *)

Lemma handler_run net req :
  run net (handler req) = (outbound req, answer net req).
Proof.
  unfold outbound, answer.
  destruct (password_of req) as [p |] eqn:H.
  - pose proof (password_of_inv req p H) as (Hm & parsed & Hj & Hn & Hprop).
    rewrite Hm, Hj, Hprop.
    assert (Ha : forall X Y : Settled Response,
               match parsed with JNull => X | _ => Y end = Y)
      by (intros; destruct parsed; try reflexivity; contradiction).
    rewrite Ha. destruct (String.eqb_spec p "") as [-> | Hp].
    + rewrite (handler_with_empty_password net req H). reflexivity.
    + rewrite (handler_with_password req p H Hp). unfold stages.
      destruct (strengthIssues p) as [| i issues]; [| reflexivity].
      apply lookup_run.
  - revert H. unfold password_of, handler, evaluate.
    destruct (String.eqb (req_method req) "OPTIONS"); [reflexivity |].
    destruct (req_json req) as [parsed | e]; [| reflexivity].
    destruct parsed as [| b | q | s | items | members];
      try (intros _; reflexivity).
    cbn [await bind destructure_password property].
    destruct (member "password" members)
      as [[| b | q | s | items | ms] |]; try discriminate;
      intros _; (rewrite guard_rejects; [reflexivity | discriminate]).
Qed.

(** X4: what the handler sends is a function of the request alone: the one
    range request when the request brings a password without any issue, and
    nothing in every other case; so at most one request, never a retry, and
    nothing that depends on what the network answers. *)
Theorem handler_sends_at_most_the_range_request net req :
  fst (run net (handler req)) = outbound req /\
  (List.length (fst (run net (handler req))) <= 1)%nat /\
  (fst (run net (handler req)) <> [] <->
   exists p, password_of req = Some p /\ strengthIssues p = []).
Proof.
  rewrite handler_run. cbn [fst]. split; [reflexivity |].
  unfold outbound. destruct (password_of req) as [p |].
  - destruct (strengthIssues p) as [| i issues] eqn:E.
    + split; [simpl; lia |]. split; [eauto | discriminate].
    + split; [simpl; lia |]. split; [contradiction |].
      intros (p' & [= <-] & E'). rewrite E in E'. discriminate.
  - split; [simpl; lia |]. split; [contradiction |].
    intros (p' & H' & _). discriminate.
Qed.

Lemma decided_shape suffix hashes :
  decided suffix hashes = Resolved secure \/
  (exists n, decided suffix hashes = Resolved (breached n)) \/
  (exists e, decided suffix hashes = Resolved (internal_error e)).
Proof.
  unfold decided. destruct (find (names suffix) hashes) as [line |]; [| auto].
  destruct (after_first ":" line); eauto.
Qed.

Lemma lookup_answer_shape net p :
  lookup_answer net p = Resolved degraded \/
  lookup_answer net p = Resolved secure \/
  (exists n, lookup_answer net p = Resolved (breached n)) \/
  (exists e, lookup_answer net p = Resolved (internal_error e)).
Proof.
  unfold lookup_answer.
  destruct (net (range_request (prefix_of p))) as [e | r]; [eauto 6 |].
  destruct (ok r); [| auto].
  destruct (reply_text r) as [text | e]; [| eauto 6].
  destruct (decided_shape (suffix_of p) (split "010" text))
    as [E | [[n E] | [e E]]]; rewrite E; eauto 6.
Qed.






Lemma empty_line_names_nothing p : names (suffix_of p) "" = false.
Proof.
  rewrite names_before. cbn [before]. apply String.eqb_neq. intros E.
  pose proof (suffix_of_length p) as H.
  rewrite <- E in H. discriminate H.
Qed.

(** X7: for a password without issue, a reply of the range API with a
    status outside 200-299 gives the degraded answer ([apiError]) whatever
    its body, which is not read; a reply with any status in 200-299, 204 as
    well as 200, is read as a list of hashes, so that an empty body gives
    the answer "Password is secure". *)
Theorem only_statuses_outside_2xx_degrade net req p r :
  password_of req = Some p -> strengthIssues p = [] ->
  net (range_request (prefix_of p)) = Answer r ->
  (reply_status r < 200 \/ 299 < reply_status r ->
   run net (handler req) = ([range_request (prefix_of p)], Resolved degraded))
  /\
  (200 <= reply_status r <= 299 -> reply_text r = Resolved "" ->
   run net (handler req) = ([range_request (prefix_of p)], Resolved secure)).
Proof.
  intros H Hi Hn. rewrite (handler_looks_up req p H Hi), lookup_run.
  unfold lookup_answer, ok. rewrite Hn. split.
  - intros Hs.
    assert (E : (200 <=? reply_status r) && (reply_status r <=? 299) = false).
    { apply andb_false_iff. rewrite Z.leb_gt, Z.leb_gt. lia. }
    rewrite E. reflexivity.
  - intros Hs Ht.
    assert (E : (200 <=? reply_status r) && (reply_status r <=? 299) = true).
    { apply andb_true_iff. rewrite !Z.leb_le. lia. }
    rewrite E, Ht. unfold decided.
    change (split "010" "") with [""]. cbn [find].
    rewrite empty_line_names_nothing. reflexivity.
Qed.

Lemma only_statuses_outside_2xx_degrade_witness :
  run (answering 503 "0018A45C4D1DEF81644B54AB7F969B88D65:1")
      (handler (post "Correct-Horse-799")) =
    ([range_request (prefix_of "Correct-Horse-799")], Resolved degraded) /\
  run (answering 204 "") (handler (post "Correct-Horse-799")) =
    ([range_request (prefix_of "Correct-Horse-799")], Resolved secure).
Proof.
  assert (Hi : strengthIssues "Correct-Horse-799" = [])
    by (vm_compute; reflexivity).
  split.
  - refine (proj1 (only_statuses_outside_2xx_degrade (answering 503 _)
             (post "Correct-Horse-799") "Correct-Horse-799"
             (mkReply 503 (Resolved _) _) eq_refl Hi eq_refl) _).
    right. reflexivity.
  - refine (proj2 (only_statuses_outside_2xx_degrade (answering 204 _)
             (post "Correct-Horse-799") "Correct-Horse-799"
             (mkReply 204 (Resolved _) _) eq_refl Hi eq_refl) _ eq_refl).
    cbn [reply_status]. lia.
Defined.

Lemma answer_headers net req :
  exists resp,
    answer net req = Resolved resp /\
    (status resp = 200 \/ status resp = 400 \/ status resp = 500) /\
    if String.eqb (req_method req) "OPTIONS"
    then resp = preflight
    else (exists members, body resp = Some (JObj members)) /\
         headers resp = jsonHeaders.
Proof.
  unfold answer. destruct (String.eqb (req_method req) "OPTIONS").
  - eexists. split; [reflexivity |]. split; [auto | reflexivity].
  - destruct (req_json req) as [parsed | e];
      [| eexists; split; [reflexivity |]; split; [auto |];
         split; [eexists |]; reflexivity].
    destruct parsed as [| b | q | s | items | members];
      try (eexists; split; [reflexivity |]; split; [auto |];
           split; [eexists |]; reflexivity).
    cbn [property].
    destruct (member "password" members)
      as [[| b | q | s | items | ms] |];
      try (eexists; split; [reflexivity |]; split; [auto |];
           split; [eexists |]; reflexivity).
    destruct (String.eqb s "");
      [eexists; split; [reflexivity |]; split; [auto |];
       split; [eexists |]; reflexivity |].
    destruct (strengthIssues s) as [| i issues];
      [| eexists; split; [reflexivity |]; split; [auto |];
         split; [eexists |]; reflexivity].
    destruct (lookup_answer_shape net s) as [E | [E | [[n E] | [e E]]]];
      rewrite E; eexists; (split; [reflexivity |]); (split; [auto |]);
      (split; [eexists |]); reflexivity.
Qed.

(** X8: the handler never rejects: for every request and whatever the
    network does it resolves to a response of status 200, 400 or 500 that
    carries the three CORS headers; for OPTIONS it is the empty 200 answer,
    given before the body is read, and for every other method the response
    has a JSON object as body and the JSON content type. *)
Theorem handler_always_answers net req :
  exists resp,
    snd (run net (handler req)) = Resolved resp /\
    (status resp = 200 \/ status resp = 400 \/ status resp = 500) /\
    incl corsHeaders (headers resp) /\
    if String.eqb (req_method req) "OPTIONS"
    then resp = preflight /\ fst (run net (handler req)) = []
    else (exists members, body resp = Some (JObj members)) /\
         In ("Content-Type", "application/json") (headers resp).
Proof.
  pose proof (handler_run net req) as Hrun.
  destruct (answer_headers net req) as (resp & E & Hst & Hm).
  exists resp. rewrite Hrun, E. split; [reflexivity |]. split; [exact Hst |].
  cbn [fst]. unfold outbound, password_of.
  destruct (String.eqb (req_method req) "OPTIONS").
  - subst resp. split; [apply incl_refl | split; reflexivity].
  - destruct Hm as [Hb Hh]. rewrite Hh. split.
    + apply incl_appl, incl_refl.
    + split; [exact Hb |]. apply in_or_app. right. left. reflexivity.
Qed.

(** X9: the method is not looked at beyond OPTIONS: two requests with the
    same body and any two methods other than OPTIONS (a GET or a DELETE as
    well as a POST) make the handler send the same requests and give the
    same answer. *)
Theorem method_is_not_checked net m1 m2 parsed_body :
  m1 <> "OPTIONS" -> m2 <> "OPTIONS" ->
  run net (handler (mkRequest m1 parsed_body)) =
  run net (handler (mkRequest m2 parsed_body)).
Proof.
  intros H1 H2. apply String.eqb_neq in H1, H2.
  unfold handler. cbn [req_method]. rewrite H1, H2. reflexivity.
Qed.

Lemma method_is_not_checked_witness :
  run unreachable
    (handler (mkRequest "GET" (Resolved (JObj [("password", JStr "Ab1!")])))) =
  run unreachable (handler (post "Ab1!")).
Proof.
  refine (method_is_not_checked unreachable "GET" "POST" _ _ _);
    discriminate.
Defined.

(* ===================================================================== *)
(** ** Further properties of the Policy Evaluator *)
(* ===================================================================== *)

(** X10: each of the six messages is in the issues exactly when its rule is
    violated: fewer than 12 code units; no A-Z; no a-z; no 0-9; nothing
    outside these three classes; lower-case form on the deny-list. *)
Theorem policy_rules_characterised p :
  (In issue_length (strengthIssues p) <-> (String.length p < 12)%nat) /\
  (In issue_uppercase (strengthIssues p) <-> ~ has uppercase p) /\
  (In issue_lowercase (strengthIssues p) <-> ~ has lowercase p) /\
  (In issue_number (strengthIssues p) <-> ~ has digit p) /\
  (In issue_special (strengthIssues p) <-> ~ has special p) /\
  (In issue_common (strengthIssues p) <->
   In (toLowerCase p) commonPasswords).
Proof.
  repeat split;
    try (intros H; apply strengthIssues_In in H;
         destruct H as [[H E] | [[H E] | [[H E] | [[H E] | [[H E] | [H E]]]]]];
         (discriminate E || exact H));
    intros H; apply strengthIssues_In; tauto.
Qed.








Lemma subsequence_full {A : Type} (l l' : list A) :
  subsequence l l' -> List.length l = List.length l' -> l = l'.
Proof.
  induction 1 as [| x l l' H IH | x l l' H IH]; cbn [List.length]; intros E.
  - reflexivity.
  - apply subsequence_length in H. lia.
  - f_equal. apply IH. lia.
Qed.

Lemma classless_is_empty p :
  ~ has uppercase p -> ~ has lowercase p -> ~ has digit p ->
  ~ has special p -> p = "".
Proof.
  destruct p as [| c rest]; [reflexivity |]. intros Hu Hlo Hd Hs. exfalso.
  assert (Hin : In c (list_ascii_of_string (String c rest)))
    by (left; reflexivity).
  assert (Hnu : ~ uppercase c) by (intros H; apply Hu; exists c; auto).
  assert (Hnl : ~ lowercase c) by (intros H; apply Hlo; exists c; auto).
  assert (Hnd : ~ digit c) by (intros H; apply Hd; exists c; auto).
  apply Hs. exists c. split; [exact Hin |]. unfold special. auto.
Qed.

Lemma policy_rules_characterised_aux p :
  (In issue_uppercase (strengthIssues p) -> ~ has uppercase p) /\
  (In issue_lowercase (strengthIssues p) -> ~ has lowercase p) /\
  (In issue_number (strengthIssues p) -> ~ has digit p) /\
  (In issue_special (strengthIssues p) -> ~ has special p).
Proof.
  repeat split; intros H; apply strengthIssues_In in H;
    destruct H as [[H E] | [[H E] | [[H E] | [[H E] | [[H E] | [H E]]]]]];
    (discriminate E || exact H).
Qed.

(** X12: no password gets the six complaints together: the list of issues
    has at most five entries. *)
Theorem at_most_five_issues p : (List.length (strengthIssues p) <= 5)%nat.
Proof.
  pose proof (strengthIssues_subsequence p) as Hsub.
  pose proof (subsequence_length _ _ Hsub) as Hlen.
  change (List.length all_issues) with 6%nat in Hlen.
  destruct (Nat.eq_dec (List.length (strengthIssues p)) 6) as [E | E];
    [| lia].
  exfalso. apply (subsequence_full _ _ Hsub) in E.
  assert (Hall : forall x, In x all_issues -> In x (strengthIssues p))
    by (rewrite E; trivial).
  pose proof (policy_rules_characterised_aux p) as Haux.
  apply (common_not_empty p).
  - apply evaluator_common, Hall. do 5 right. left. reflexivity.
  - destruct Haux as (Hu & Hlo & Hd & Hs).
    apply classless_is_empty;
      [apply Hu | apply Hlo | apply Hd | apply Hs]; apply Hall; simpl; tauto.
Qed.

(* ===================================================================== *)
(** ** Further properties of the client side *)
(* ===================================================================== *)

Import StrengthIndicator.

Lemma checkPassword_run net env password :
  run net (PasswordValidation.checkPassword env password) =
  ([PasswordValidation.check_request env password],
   Resolved (client_result net env password)).
Proof.
  unfold PasswordValidation.checkPassword, client_result, fetch.
  cbn [bind try_catch run].
  destruct (net (PasswordValidation.check_request env password)) as [e | r];
    [reflexivity |].
  cbn [bind try_catch run]. destruct (ok r); [| reflexivity].
  destruct (reply_json r); reflexivity.
Qed.


Lemma handler_always_answers_aux net req :
  String.eqb (req_method req) "OPTIONS" = false ->
  exists resp,
    snd (run net (handler req)) = Resolved resp /\
    (status resp = 200 \/ status resp = 400 \/ status resp = 500) /\
    exists members, body resp = Some (JObj members).
Proof.
  intros Hm. rewrite handler_run. cbn [snd].
  destruct (answer_headers net req) as (resp & E & Hst & H).
  rewrite Hm in H. destruct H as [Hb _]. exists resp. auto.
Qed.

(** X14: the client and the edge function together.  When the network hands
    the request of [checkPassword] to the handler and the handler's response
    back, [checkPassword] resolves to the body of the response if its status
    is 200, and to the result of its own [catch] block ([apiError = true],
    [isBreached = false], [isWeak = false]) if the status is 400 or 500. *)
Theorem client_gets_body_or_its_own_fallback
    net_client net_server env password r resp :
  net_client (PasswordValidation.check_request env password) = Answer r ->
  snd (run net_server
         (handler (request_of
            (PasswordValidation.check_request env password)))) =
    Resolved resp ->
  delivers r resp ->
  exists result,
    snd (run net_client (PasswordValidation.checkPassword env password)) =
      Resolved result /\
    (status resp = 200 -> body resp = Some result) /\
    (status resp <> 200 -> result = PasswordValidation.unable_to_verify).
Proof.
  intros Hn Hrun [Hst Hjson]. rewrite checkPassword_run. cbn [snd].
  exists (client_result net_client env password). split; [reflexivity |].
  unfold client_result, ok. rewrite Hn, Hst.
  destruct (handler_always_answers_aux net_server
              (request_of (PasswordValidation.check_request env password))
              eq_refl)
    as (resp' & E & Hstatus & members & Hbody).
  rewrite Hrun in E. injection E as <-.
  rewrite Hbody in Hjson. rewrite Hjson.
  destruct Hstatus as [E | [E | E]]; rewrite E; cbn; split;
    intros H; try discriminate H; try contradiction; try reflexivity.
  exact Hbody.
Qed.

Lemma client_gets_body_or_its_own_fallback_witness :
  snd (run (fun _ => Answer
              (handed (internal_error (TypeError "error sending request"))))
         (PasswordValidation.checkPassword supabase "Correct-Horse-799")) =
    Resolved PasswordValidation.unable_to_verify /\
  snd (run (fun _ => Answer (handed (weak (strengthIssues "Ab1!"))))
         (PasswordValidation.checkPassword supabase "Ab1!")) =
    Resolved (JObj [ ("isBreached", JBool false);
                     ("isWeak", JBool true);
                     ("issues", JArr (map JStr (strengthIssues "Ab1!"))) ]).
Proof.
  split.
  - destruct (client_gets_body_or_its_own_fallback
                (fun _ => Answer
                   (handed (internal_error (TypeError "error sending request"))))
                unreachable supabase "Correct-Horse-799"
                (handed (internal_error (TypeError "error sending request")))
                (internal_error (TypeError "error sending request"))
                eq_refl)
      as (result & Hrun & _ & Hfallback).
    + vm_compute. reflexivity.
    + split; reflexivity.
    + rewrite Hrun. f_equal. apply Hfallback. discriminate.
  - destruct (client_gets_body_or_its_own_fallback
                (fun _ => Answer (handed (weak (strengthIssues "Ab1!"))))
                unreachable supabase "Ab1!"
                (handed (weak (strengthIssues "Ab1!")))
                (weak (strengthIssues "Ab1!")) eq_refl)
      as (result & Hrun & Hbody & _).
    + vm_compute. reflexivity.
    + split; reflexivity.
    + rewrite Hrun. f_equal. specialize (Hbody eq_refl).
      injection Hbody as <-. reflexivity.
Defined.

(** X15: an outage of the breach service, seen from the client.  For a
    password without issue, when the range API cannot be reached (the
    handler then answers 500) or answers with a status outside 200-299 (the
    handler then answers 200 with the degraded body), and the network hands
    the handler's response to [checkPassword], the result has
    [apiError = true], [isBreached = false] and [isWeak = false], and the
    indicator shows it as "Strong password" in green. *)
Theorem breach_service_outage_seen_from_the_client
    net_client net_server env password r resp :
  strengthIssues password = [] ->
  (exists e, net_server (range_request (prefix_of password)) =
             NetworkFailure e) \/
  (exists r', net_server (range_request (prefix_of password)) = Answer r' /\
              ok r' = false) ->
  net_client (PasswordValidation.check_request env password) = Answer r ->
  snd (run net_server
         (handler (request_of
            (PasswordValidation.check_request env password)))) =
    Resolved resp ->
  delivers r resp ->
  exists result,
    snd (run net_client (PasswordValidation.checkPassword env password)) =
      Resolved result /\
    property "apiError" result = Some (JBool true) /\
    property "isBreached" result = Some (JBool false) /\
    property "isWeak" result = Some (JBool false) /\
    getPasswordStrengthText result = "Strong password" /\
    getPasswordStrengthColor result = "bg-green-500".
Proof.
  intros Hi Hout Hn Hrun [Hst Hjson]. rewrite checkPassword_run. cbn [snd].
  exists (client_result net_client env password). split; [reflexivity |].
  unfold client_result, ok. rewrite Hn, Hst.
  assert (Hreq : password_of
                   (request_of
                      (PasswordValidation.check_request env password)) =
                 Some password) by reflexivity.
  revert Hrun.
  destruct Hout as [[e He] | (r' & He & Hok)].
  - rewrite (handler_unreachable _ _ _ _ Hreq Hi He). intros [= <-].
    repeat split.
  - rewrite (handler_not_ok _ _ _ _ Hreq Hi He Hok). intros [= <-].
    cbn in Hjson |- *. rewrite Hjson. repeat split.
Qed.

Lemma breach_service_outage_seen_from_the_client_witness :
  snd (run (fun _ => Answer
              (handed (internal_error (TypeError "error sending request"))))
         (PasswordValidation.checkPassword supabase "Correct-Horse-799")) =
    Resolved PasswordValidation.unable_to_verify.
Proof.
  destruct (breach_service_outage_seen_from_the_client
              (fun _ => Answer
                 (handed (internal_error (TypeError "error sending request"))))
              unreachable supabase "Correct-Horse-799"
              (handed (internal_error (TypeError "error sending request")))
              (internal_error (TypeError "error sending request")))
    as (result & Hrun & Hflags).
  - vm_compute. reflexivity.
  - left. eexists. reflexivity.
  - reflexivity.
  - vm_compute. reflexivity.
  - split; reflexivity.
  - rewrite Hrun. f_equal.
    revert Hrun. rewrite checkPassword_run. intros [= <-]. reflexivity.
Defined.

(* ===================================================================== *)
(** ** Further properties of the sign-up form *)
(* ===================================================================== *)

Import AuthModal.

Lemma ui_run_bind {A B : Type} w (m : UI A) (f : A -> UI B) :
  ui_run w (ui_bind m f) =
  match ui_run w m with
  | (steps, Resolved a) =>
      let '(steps', result) := ui_run w (f a) in (steps ++ steps', result)
  | (steps, Rejected e) => (steps, Rejected e)
  end.
Proof.
  induction m as [a | e | s k IH | rq k IH | c k IH]; cbn [ui_bind ui_run].
  - destruct (ui_run w (f a)); reflexivity.
  - reflexivity.
  - rewrite IH. destruct (ui_run w k) as [steps [a | e]];
      [destruct (ui_run w (f a)) |]; reflexivity.
  - rewrite IH. destruct (ui_run w (k (net w rq))) as [steps [a | e]];
      [destruct (ui_run w (f a)) |]; reflexivity.
  - rewrite IH. destruct (ui_run w (k (auth w c))) as [steps [a | e]];
      [destruct (ui_run w (f a)) |]; reflexivity.
Qed.

Lemma ui_run_catch {A : Type} w (m : UI A) (h : exn -> UI A) :
  ui_run w (ui_catch m h) =
  match ui_run w m with
  | (steps, Resolved a) => (steps, Resolved a)
  | (steps, Rejected e) =>
      let '(steps', result) := ui_run w (h e) in (steps ++ steps', result)
  end.
Proof.
  induction m as [a | e | s k IH | rq k IH | c k IH]; cbn [ui_catch ui_run].
  - reflexivity.
  - destruct (ui_run w (h e)); reflexivity.
  - rewrite IH. destruct (ui_run w k) as [steps [a | e]];
      [| destruct (ui_run w (h e))]; reflexivity.
  - rewrite IH. destruct (ui_run w (k (net w rq))) as [steps [a | e]];
      [| destruct (ui_run w (h e))]; reflexivity.
  - rewrite IH. destruct (ui_run w (k (auth w c))) as [steps [a | e]];
      [| destruct (ui_run w (h e))]; reflexivity.
Qed.

Lemma ui_run_finally_step {A : Type} w (m : UI A) (s : Step) :
  ui_run w (ui_finally m (step s)) =
  (fst (ui_run w m) ++ [s], snd (ui_run w m)).
Proof.
  induction m as [a | e | s' k IH | rq k IH | c k IH];
    cbn [ui_finally ui_run ui_bind step fst snd app]; try reflexivity.
  - rewrite IH. destruct (ui_run w k); reflexivity.
  - rewrite IH. destruct (ui_run w (k (net w rq))); reflexivity.
  - rewrite IH. destruct (ui_run w (k (auth w c))); reflexivity.
Qed.

Lemma ui_run_lift {A : Type} w (m : Async A) :
  ui_run w (lift m) = (map Sent (fst (run (net w) m)), snd (run (net w) m)).
Proof.
  induction m as [a | e | rq k IH]; cbn [lift ui_run run fst snd map];
    try reflexivity.
  rewrite IH. destruct (run (net w) (k (net w rq))); reflexivity.
Qed.

Lemma handle_run N w env props :
  ui_run w (handleEmailAuth N env props) =
  ([preventDefault; setIsLoading true; setError ""] ++
   fst (ui_run w (try_body N env props)) ++
   caught (snd (ui_run w (try_body N env props))) ++ [setIsLoading false],
   Resolved tt).
Proof.
  unfold handleEmailAuth. fold (try_body N env props).
  cbn [ui_bind step ui_run]. rewrite ui_run_finally_step, ui_run_catch.
  destruct (ui_run w (try_body N env props)) as [steps [[] | e]];
    cbn [fst snd caught step ui_run app]; rewrite ?app_nil_r; try reflexivity.
  rewrite <- app_assoc. reflexivity.
Qed.

Lemma run_step w s : ui_run w (step s) = ([s], Resolved tt).
Proof. reflexivity. Qed.

Lemma run_call w c :
  ui_run w (call c) =
  ([Called c], match auth w c with Resolved _ => Resolved tt
                                 | Rejected e => Rejected e end).
Proof. unfold call. cbn [ui_run]. destruct (auth w c); reflexivity. Qed.

Lemma run_check w env pwd :
  ui_run w (lift (PasswordValidation.checkPassword env pwd)) =
  ([Sent (PasswordValidation.check_request env pwd)],
   Resolved (client_result (net w) env pwd)).
Proof. rewrite ui_run_lift, checkPassword_run. reflexivity. Qed.

Lemma run_proceed w props :
  ui_run w (proceed props) =
  match auth w (signUpWithEmail (email props) (password props)) with
  | Resolved _ =>
      ([Called (signUpWithEmail (email props) (password props));
        setError "";
        alert "Account created! Please check your email to verify your account, then sign in.";
        setMode signin], Resolved tt)
  | Rejected e =>
      ([Called (signUpWithEmail (email props) (password props))], Rejected e)
  end.
Proof.
  unfold proceed. rewrite ui_run_bind, run_call.
  destruct (auth w _); reflexivity.
Qed.

Lemma issues_text_steps N w name r :
  fst (ui_run w (issues_text N name r)) = [].
Proof.
  unfold issues_text, array_join.
  destruct (property "issues" r) as [[| b | q | s | items | ms] |];
    try reflexivity.
  destruct (all_some (map (element_text N) items)); reflexivity.
Qed.

Lemma refused_steps N w name r :
  forall c, ~ In (Called c)
    (fst (ui_run w (text <-- issues_text N name r ;;;
                    step (setError text) ;;; step (setIsLoading false)))).
Proof.
  intros c. rewrite ui_run_bind.
  pose proof (issues_text_steps N w name r) as H.
  destruct (ui_run w (issues_text N name r)) as [steps [text | e]];
    cbn [fst] in H; subst steps.
  - cbn. intuition discriminate.
  - cbn. tauto.
Qed.


Lemma tail_calls N w props name result c isBreached isWeak :
  In (Called c) (fst (ui_run w
    (if truthy isBreached
     then step (setError breach_text) ;;; step (setIsLoading false)
     else
       if truthy isWeak
       then text <-- issues_text N name result ;;;
            step (setError text) ;;; step (setIsLoading false)
       else proceed props))) <->
  c = signUpWithEmail (email props) (password props) /\
  truthy isBreached = false /\ truthy isWeak = false.
Proof.
  destruct (truthy isBreached); [cbn; intuition discriminate |].
  destruct (truthy isWeak).
  - split; [| intros (_ & _ & H); discriminate H].
    intros H. exfalso. exact (refused_steps _ _ _ _ _ H).
  - rewrite run_proceed.
    destruct (auth w _); cbn; intuition (discriminate || congruence).
Qed.

Lemma tail_sends N w props name result rq isBreached isWeak :
  ~ In (Sent rq) (fst (ui_run w
    (if truthy isBreached
     then step (setError breach_text) ;;; step (setIsLoading false)
     else
       if truthy isWeak
       then text <-- issues_text N name result ;;;
            step (setError text) ;;; step (setIsLoading false)
       else proceed props))).
Proof.
  destruct (truthy isBreached); [cbn; intuition discriminate |].
  destruct (truthy isWeak).
  - rewrite ui_run_bind.
    pose proof (issues_text_steps N w name result) as H.
    destruct (ui_run w (issues_text N name result)) as [steps [text | e]];
      cbn [fst] in H; subst steps; cbn; intuition discriminate.
  - rewrite run_proceed. destruct (auth w _); cbn; intuition discriminate.
Qed.

(** The sign-up branch after a fresh check. *)
Lemma checked_run N w env props :
  ui_run w
    (step (setIsCheckingPassword true) ;;;
     result <-- lift (PasswordValidation.checkPassword env (password props)) ;;;
     step (setPasswordCheckResult result) ;;;
     step (setIsCheckingPassword false) ;;;
     isBreached <-- get "isBreached" result ;;;
     if truthy isBreached
     then step (setError breach_text) ;;; step (setIsLoading false)
     else
       isWeak <-- get "isWeak" result ;;;
       if truthy isWeak
       then text <-- issues_text N "result" result ;;;
            step (setError text) ;;; step (setIsLoading false)
       else proceed props) =
  let tail :=
    match client_result (net w) env (password props) with
    | JNull =>
        ([], Rejected (TypeError
               "Cannot read properties of null (reading 'isBreached')"))
    | result =>
        ui_run w
          (if truthy (property "isBreached" result)
           then step (setError breach_text) ;;; step (setIsLoading false)
           else
             if truthy (property "isWeak" result)
             then text <-- issues_text N "result" result ;;;
                  step (setError text) ;;; step (setIsLoading false)
             else proceed props)
    end in
  ([ setIsCheckingPassword true;
     Sent (PasswordValidation.check_request env (password props));
     setPasswordCheckResult (client_result (net w) env (password props));
     setIsCheckingPassword false ] ++ fst tail, snd tail).
Proof.
  cbn [ui_bind step]. cbn [ui_run]. rewrite ui_run_bind, run_check.
  cbn [ui_bind step]. cbn [ui_run].
  destruct (client_result (net w) env (password props))
    as [| b | q | s | items | ms]; cbn [get ui_bind];
    try (destruct (ui_run w _); reflexivity).
  reflexivity.
Qed.

Lemma sign_up_calls N w env props c :
  mode props = signup ->
  In (Called c) (fst (ui_run w (sign_up N env props))) <->
  c = signUpWithEmail (email props) (password props) /\
  gate_open (net w) env props = true.
Proof.
  intros Hm. unfold sign_up, gate_open. fold (proceed props). rewrite Hm.
  cbn [mode_is andb].
  destruct (truthy (optional "isBreached" (passwordCheckResult props))).
  { cbn. intuition discriminate. }
  destruct (truthy (optional "isWeak" (passwordCheckResult props))).
  { split; [| intros [_ H]; discriminate H].
    intros H. exfalso. exact (refused_steps _ _ _ _ _ H). }
  cbn [negb andb].
  destruct (falsy (Some (passwordCheckResult props))
            && (6 <=? String.length (password props))%nat).
  - rewrite checked_run. cbn zeta. cbn [fst]. unfold lets_through.
    destruct (client_result (net w) env (password props))
      as [| b | q | s | items | ms];
      try (rewrite in_app_iff, tail_calls;
           cbn [In];
           destruct (truthy (property "isBreached" _));
           destruct (truthy (property "isWeak" _));
           cbn; intuition (discriminate || congruence)).
    cbn. intuition discriminate.
  - rewrite run_proceed.
    destruct (auth w _); cbn; intuition (discriminate || congruence).
Qed.

Lemma sign_up_sends N w env props rq :
  mode props = signup ->
  In (Sent rq) (fst (ui_run w (sign_up N env props))) <->
  rq = PasswordValidation.check_request env (password props) /\
  checks_now props = true.
Proof.
  intros Hm. unfold sign_up, checks_now. fold (proceed props). rewrite Hm.
  cbn [mode_is andb].
  destruct (truthy (optional "isBreached" (passwordCheckResult props))).
  { cbn. intuition discriminate. }
  destruct (truthy (optional "isWeak" (passwordCheckResult props))).
  { split; [| intros [_ H]; discriminate H].
    intros H. exfalso. revert H.
    apply (tail_sends N w props "passwordCheckResult"
             (passwordCheckResult props) rq
             (Some (JBool false)) (Some (JBool true))). }
  cbn [negb andb].
  destruct (falsy (Some (passwordCheckResult props))
            && (6 <=? String.length (password props))%nat).
  - rewrite checked_run. cbn zeta. cbn [fst]. rewrite in_app_iff. split.
    + intros [H | H].
      * cbn in H. intuition (discriminate || congruence).
      * exfalso. revert H.
        destruct (client_result (net w) env (password props));
          try apply tail_sends. intros [].
    + intros [-> _]. left. cbn. tauto.
  - split; [| intros [_ H]; discriminate H].
    intros H. exfalso. revert H.
    apply (tail_sends N w props "result" JNull rq
             (Some (JBool false)) (Some (JBool false))).
Qed.

(** A rejected call to the authentication context is what the [try] block
    throws. *)
Lemma tail_rejects N w props name result c e isBreached isWeak :
  In (Called c) (fst (ui_run w
    (if truthy isBreached
     then step (setError breach_text) ;;; step (setIsLoading false)
     else
       if truthy isWeak
       then text <-- issues_text N name result ;;;
            step (setError text) ;;; step (setIsLoading false)
       else proceed props))) ->
  auth w c = Rejected e ->
  snd (ui_run w
    (if truthy isBreached
     then step (setError breach_text) ;;; step (setIsLoading false)
     else
       if truthy isWeak
       then text <-- issues_text N name result ;;;
            step (setError text) ;;; step (setIsLoading false)
       else proceed props)) = Rejected e.
Proof.
  destruct (truthy isBreached); [cbn; intuition discriminate |].
  destruct (truthy isWeak).
  - intros H. exfalso. exact (refused_steps _ _ _ _ _ H).
  - rewrite run_proceed.
    destruct (auth w (signUpWithEmail _ _)) as [u | e'] eqn:E; cbn;
      intros [[= <-] | H] He; try congruence;
      repeat (destruct H as [H | H]; [discriminate H |]); destruct H.
Qed.

Lemma try_body_rejects N w env props c e :
  In (Called c) (fst (ui_run w (try_body N env props))) ->
  auth w c = Rejected e ->
  snd (ui_run w (try_body N env props)) = Rejected e.
Proof.
  unfold try_body. destruct (mode props).
  - cbn [mode_is]. rewrite ui_run_bind, run_call.
    destruct (auth w (signInWithEmail _ _)) as [u | e'] eqn:E; cbn;
      intros [[= <-] | H] He; try congruence;
      repeat (destruct H as [H | H]; [discriminate H |]); destruct H.
  - cbn [mode_is]. unfold sign_up. fold (proceed props).
    destruct (truthy (optional "isBreached" (passwordCheckResult props))).
    { cbn. intuition discriminate. }
    destruct (truthy (optional "isWeak" (passwordCheckResult props))).
    { intros H. exfalso. exact (refused_steps _ _ _ _ _ H). }
    destruct (falsy (Some (passwordCheckResult props))
              && (6 <=? String.length (password props))%nat).
    + rewrite checked_run. cbn zeta. cbn [fst snd]. rewrite in_app_iff.
      intros [H | H]; [cbn in H; intuition discriminate |].
      revert H.
      destruct (client_result (net w) env (password props));
        try apply tail_rejects. intros [].
    + apply (tail_rejects N w props "result" JNull c e
               (Some (JBool false)) (Some (JBool false))).
Qed.

Lemma try_body_calls N w env props e p :
  In (Called (signUpWithEmail e p)) (fst (ui_run w (try_body N env props))) <->
  e = email props /\ p = password props /\
  gate_open (net w) env props = true.
Proof.
  unfold try_body. destruct (mode props) eqn:Hm; cbn [mode_is].
  - unfold gate_open. rewrite Hm. cbn [mode_is andb].
    rewrite ui_run_bind, run_call.
    destruct (auth w _); cbn; intuition discriminate.
  - rewrite (sign_up_calls N w env props _ Hm). split.
    + intros [[= -> ->] H]. auto.
    + intros (-> & -> & H). auto.
Qed.

Lemma try_body_sends N w env props rq :
  In (Sent rq) (fst (ui_run w (try_body N env props))) <->
  rq = PasswordValidation.check_request env (password props) /\
  checks_now props = true.
Proof.
  unfold try_body. destruct (mode props) eqn:Hm; cbn [mode_is].
  - unfold checks_now. rewrite Hm. cbn [mode_is andb].
    rewrite ui_run_bind, run_call.
    destruct (auth w _); cbn; intuition discriminate.
  - apply (sign_up_sends N w env props rq Hm).
Qed.

Lemma caught_only_sets_error r s :
  In s (caught r) -> exists text, s = setError text.
Proof. destruct r as [u | e]; cbn; [tauto |]. intros [<- | []]. eauto. Qed.

Lemma handle_steps N w env props s :
  (forall text, s <> setError text) -> (forall b, s <> setIsLoading b) ->
  s <> preventDefault ->
  In s (fst (ui_run w (handleEmailAuth N env props))) <->
  In s (fst (ui_run w (try_body N env props))).
Proof.
  intros H1 H2 H3. rewrite handle_run. cbn [fst].
  rewrite !in_app_iff. cbn [In]. split.
  - intros [[H | [H | [H | []]]] | [H | [H | [H | []]]]].
    + symmetry in H. contradiction.
    + symmetry in H. contradiction (H2 _ H).
    + symmetry in H. contradiction (H1 _ H).
    + exact H.
    + apply caught_only_sets_error in H as [text ->].
      contradiction (H1 text eq_refl).
    + symmetry in H. contradiction (H2 _ H).
  - auto.
Qed.

(** X16: [handleEmailAuth] calls [signUpWithEmail] exactly when it is in
    sign-up mode, the stored result of the check (if any) has neither
    [isBreached] nor [isWeak] truthy, and, in case no result is stored and
    the password has at least 6 code units, the result of the check it then
    makes is not [null] and has neither flag truthy; the call is made with
    the e-mail and the password of the form. *)
Theorem sign_up_is_called_exactly_through_the_gate N w env props e p :
  In (Called (signUpWithEmail e p))
     (fst (ui_run w (handleEmailAuth N env props))) <->
  e = email props /\ p = password props /\
  gate_open (net w) env props = true.
Proof.
  rewrite handle_steps by discriminate. apply try_body_calls.
Qed.

(** X17: [handleEmailAuth] sends a request exactly when it is in sign-up
    mode with no result stored (and none that is breached or weak) and a
    password of at least 6 code units; the request is the one of
    [checkPassword] for the password of the form, and on sign-in nothing is
    sent. *)
Theorem form_sends_only_the_fresh_check N w env props rq :
  In (Sent rq) (fst (ui_run w (handleEmailAuth N env props))) <->
  rq = PasswordValidation.check_request env (password props) /\
  checks_now props = true.
Proof.
  rewrite handle_steps by discriminate. apply try_body_sends.
Qed.

(** X18: [handleEmailAuth] never throws, whatever the network and the
    authentication context do: it begins by [preventDefault],
    [setIsLoading(true)], [setError('')] and ends by [setIsLoading(false)];
    and when a call to the authentication context rejects, the message of
    the error (or the default text if it is empty) is shown. *)
Theorem handleEmailAuth_always_settles N w env props :
  exists steps,
    ui_run w (handleEmailAuth N env props) =
      ([preventDefault; setIsLoading true; setError ""] ++ steps ++
       [setIsLoading false], Resolved tt) /\
    forall c e,
      In (Called c) steps -> auth w c = Rejected e ->
      In (setError (error_text e)) steps.
Proof.
  exists (fst (ui_run w (try_body N env props)) ++
          caught (snd (ui_run w (try_body N env props)))).
  split.
  - rewrite handle_run, <- app_assoc. reflexivity.
  - intros c e Hin He. apply in_app_iff in Hin as [Hin | Hin].
    + rewrite (try_body_rejects N w env props c e Hin He).
      apply in_or_app. right. left. reflexivity.
    + apply caught_only_sets_error in Hin as [text Hin]. discriminate Hin.
Qed.

Lemma failed_check_lets_through net env pwd :
  (exists e, net (PasswordValidation.check_request env pwd) =
             NetworkFailure e) \/
  (exists r, net (PasswordValidation.check_request env pwd) = Answer r /\
             ok r = false) ->
  client_result net env pwd = PasswordValidation.unable_to_verify.
Proof.
  unfold client_result. intros [[e ->] | (r & -> & ->)]; reflexivity.
Qed.

(** X19: the form fails open.  In sign-up mode with no result stored,
    [handleEmailAuth] goes on to [signUpWithEmail] when the password has
    fewer than 6 code units, without any check, and when the check it makes
    fails (the call does not go through, or the endpoint answers with a
    status outside 200-299). *)
Theorem sign_up_goes_on_unverified N w env props :
  mode props = signup -> passwordCheckResult props = JNull ->
  (String.length (password props) < 6)%nat \/
  (exists e, net w (PasswordValidation.check_request env (password props)) =
             NetworkFailure e) \/
  (exists r, net w (PasswordValidation.check_request env (password props)) =
             Answer r /\ ok r = false) ->
  In (Called (signUpWithEmail (email props) (password props)))
     (fst (ui_run w (handleEmailAuth N env props))) /\
  ((String.length (password props) < 6)%nat ->
   forall rq, ~ In (Sent rq) (fst (ui_run w (handleEmailAuth N env props)))).
Proof.
  intros Hm Hr Hcase. split.
  - rewrite handle_steps by discriminate. apply try_body_calls.
    split; [reflexivity |]. split; [reflexivity |].
    unfold gate_open. rewrite Hm, Hr. cbn [mode_is optional truthy falsy
      negb andb].
    destruct (Nat.leb_spec 6 (String.length (password props))) as [Hl | Hl];
      [| reflexivity].
    destruct Hcase as [Hs | Hf]; [lia |].
    rewrite (failed_check_lets_through _ _ _ Hf). reflexivity.
  - intros Hs rq H. rewrite handle_steps in H by discriminate.
    apply try_body_sends in H as [_ H]. unfold checks_now in H.
    rewrite !andb_true_iff in H. destruct H as [_ H].
    apply Nat.leb_le in H. lia.
Qed.

Lemma sign_up_goes_on_unverified_witness :
  In (Called (signUpWithEmail "a@b.c" "Correct-Horse-799"))
     (fst (ui_run (mkWorld unreachable (fun _ => Resolved tt))
             (handleEmailAuth (fun _ => "0") supabase
                (mkProps signup "a@b.c" "Correct-Horse-799" JNull)))) /\
  In (Called (signUpWithEmail "a@b.c" "abc"))
     (fst (ui_run (mkWorld unreachable (fun _ => Resolved tt))
             (handleEmailAuth (fun _ => "0") supabase
                (mkProps signup "a@b.c" "abc" JNull)))).
Proof.
  split.
  - refine (proj1 (sign_up_goes_on_unverified (fun _ => "0")
              (mkWorld unreachable (fun _ => Resolved tt)) supabase
              (mkProps signup "a@b.c" "Correct-Horse-799" JNull)
              eq_refl eq_refl _)).
    right. left. eexists. reflexivity.
  - refine (proj1 (sign_up_goes_on_unverified (fun _ => "0")
              (mkWorld unreachable (fun _ => Resolved tt)) supabase
              (mkProps signup "a@b.c" "abc" JNull) eq_refl eq_refl _)).
    left. cbn. lia.
Defined.

(** X20: on sign-in the password is not checked: [handleEmailAuth] calls
    [signInWithEmail] with the e-mail and the password of the form and
    nothing else, closes the dialog if the call resolves and shows the
    message of the error if it rejects. *)
Theorem sign_in_checks_nothing N w env props :
  mode props = signin ->
  ui_run w (handleEmailAuth N env props) =
    ([preventDefault; setIsLoading true; setError "";
      Called (signInWithEmail (email props) (password props))] ++
     match auth w (signInWithEmail (email props) (password props)) with
     | Resolved _ => [onClose]
     | Rejected e => [setError (error_text e)]
     end ++ [setIsLoading false], Resolved tt).
Proof.
  intros Hm. rewrite handle_run. unfold try_body. rewrite Hm.
  cbn [mode_is]. rewrite ui_run_bind, run_call.
  destruct (auth w _); reflexivity.
Qed.

Lemma sign_in_checks_nothing_witness :
  ui_run (mkWorld unreachable (fun _ => Rejected (Error "")))
    (handleEmailAuth (fun _ => "0") supabase
       (mkProps signin "a@b.c" "password" JNull)) =
    ([preventDefault; setIsLoading true; setError "";
      Called (signInWithEmail "a@b.c" "password");
      setError "Authentication failed. Please try again.";
      setIsLoading false], Resolved tt).
Proof.
  exact (sign_in_checks_nothing (fun _ => "0")
           (mkWorld unreachable (fun _ => Rejected (Error ""))) supabase
           (mkProps signin "a@b.c" "password" JNull) eq_refl).
Defined.

(** X21: [checkPasswordSecurity] never throws.  In sign-in mode, or for a
    password of fewer than 6 code units (the empty one included), it sends
    nothing and clears the stored result; otherwise it sends the one request
    of [checkPassword] and stores what that resolves to, the fallback with
    [apiError] if the check failed, between [setIsCheckingPassword(true)]
    and [setIsCheckingPassword(false)]. *)
Theorem checkPasswordSecurity_clears_or_checks_once w env m pwd :
  ui_run w (checkPasswordSecurity env m pwd) =
  if mode_is m signup && (6 <=? String.length pwd)%nat
  then ([ setIsCheckingPassword true;
          Sent (PasswordValidation.check_request env pwd);
          setPasswordCheckResult (client_result (net w) env pwd);
          setIsCheckingPassword false ], Resolved tt)
  else ([setPasswordCheckResult JNull], Resolved tt).
Proof.
  unfold checkPasswordSecurity.
  destruct m; cbn [mode_is orb andb]; [reflexivity |].
  destruct pwd as [| c pwd]; [reflexivity |].
  change (String.eqb (String c pwd) "") with false. cbn [orb].
  rewrite Nat.ltb_antisym.
  destruct (6 <=? String.length (String c pwd))%nat; cbn [negb];
    [| reflexivity].
  cbn [ui_bind step]. cbn [ui_run]. rewrite ui_run_bind, run_check.
  reflexivity.
Qed.
